(** * KeeWeb auto-type orchestration engine ([app/scripts/auto-type/index.js])

    A shallow embedding of the [AutoType] object: its three state fields
    ([running], [pendingEvent], [selectEntryView]), its methods, and the
    callbacks it hands to its collaborators (parser/runner, filter, picker
    view, launcher, timers, Backbone event buses).  The JavaScript is
    single-threaded and callback driven, so the embedding is a deterministic
    state-passing model: every method is a function [World -> World], every
    callback the engine registers is kept in the world until the environment
    delivers the matching [Event]. *)

From stdpp Require Import base option list gmap strings.
From Stdlib Require Import NArith Ascii String Lia.

Local Open Scope string_scope.
Local Open Scope list_scope.
Local Open Scope stdpp_scope.

(** ** JavaScript strings

    A JS string is a sequence of UTF-16 code units.  The log redaction of
    [printOp] is a regular-expression replace whose meaning depends on the
    individual code units, so strings that reach [printOp] are modelled as
    such sequences; [js] embeds an ASCII literal. *)

Definition code_unit := N.
Definition jsstring := list code_unit.

Definition js (s : string) : jsstring :=
  map (fun c => N_of_ascii c) (list_ascii_of_string s).

(** [Array.prototype.join]. *)
Fixpoint join (sep : jsstring) (parts : list jsstring) : jsstring :=
  match parts with
  | [] => []
  | [p] => p
  | p :: rest => p ++ sep ++ join sep rest
  end.

(** The four code units that the regular expression [.] (without the [s]
    flag) does not match: LF, CR, LINE SEPARATOR, PARAGRAPH SEPARATOR. *)
Definition isLineTerminator (c : code_unit) : bool :=
  (N.eqb c 10 || N.eqb c 13 || N.eqb c 8232 || N.eqb c 8233)%N%bool.

Definition star : code_unit := 42%N.

(** [value.replace(/./g, '*')]: every match of [.] becomes one ['*']; code
    units that [.] does not match are copied. *)
Definition replaceDotStar (value : jsstring) : jsstring :=
  map (fun c => if isLineTerminator c then c else star) value.

(** ** Op trees

    The parser's ops are objects [{type, value, mod}].  [type] is ['group']
    (value: array of ops), ['text'] (value: string) or anything else
    (a command; value printed through string concatenation).  [mod] is
    either absent or an object whose own keys are the modifier characters;
    [Object.keys] lists them in insertion order. *)

Definition Mod := option (list jsstring).

Local Unset Elimination Schemes.
Inductive Op : Type :=
| OpGroup (m : Mod) (value : list Op)
| OpText (m : Mod) (value : jsstring)
| OpCmd (m : Mod) (type : jsstring) (value : jsstring).
Local Set Elimination Schemes.

(** [op.mod ? Object.keys(op.mod).join('') : ''] *)
Definition printMod (m : Mod) : jsstring :=
  match m with
  | Some keys => join [] keys
  | None => []
  end.

Section Printing.
(** [clearTextAutoTypeLog = localStorage.autoTypeDebug], as a truth value. *)
Variable clearTextAutoTypeLog : bool.

Fixpoint printOp (op : Op) : jsstring :=
  match op with
  | OpGroup m value =>
      printMod m ++ (js "[" ++ join (js ",") (map printOp value) ++ js "]")
  | OpText m value =>
      printMod m ++ (if clearTextAutoTypeLog then value else replaceDotStar value)
  | OpCmd m type value =>
      printMod m ++ type ++ js ":" ++ value
  end.

Definition printOps (ops : list Op) : jsstring :=
  js "[" ++ join (js ",") (map printOp ops) ++ js "]".
End Printing.

(** The tree whose text literals have gone through the mask; groups,
    commands and modifiers are kept. *)
Fixpoint maskOp (op : Op) : Op :=
  match op with
  | OpGroup m value => OpGroup m (map maskOp value)
  | OpText m value => OpText m (replaceDotStar value)
  | OpCmd m type value => OpCmd m type value
  end.

(** ** Data of the engine *)

(** An entry model, as far as the engine looks at it:
    [entry.getEffectiveAutoTypeSeq()] and [entry.autoTypeObfuscation]. *)
Record Entry := mkEntry {
  entryId : nat;
  getEffectiveAutoTypeSeq : jsstring;
  autoTypeObfuscation : bool
}.

(** The argument of the ['auto-type'] bus event: [e && e.entry || null]
    reads its [entry] property. *)
Record TriggerArg := mkTriggerArg { entry : option Entry }.

(** An error object; only [err.toString()] is ever used. *)
Definition Error := string.

(** [new AutoTypeFilter({title, url}, this.appModel)]: the window context
    captured when the filter is built.  After a failed title query both
    are absent. *)
Record Filter := mkFilter {
  title : option jsstring;
  url : option jsstring
}.

(** [let evt = { filter }] *)
Record Evt := mkEvt { filter : Filter }.

(** What a collaborator that may throw does on a call. *)
Inductive Outcome (A : Type) : Type :=
| Returned (a : A)
| Thrown (ex : Error).
Arguments Returned {A} a.
Arguments Thrown {A} ex.

(** The completion callback of [run].  [runAndHandleResult] passes the
    closure that raises an alert on error; any other caller passes its own
    function, of which only the calls are observed. *)
Inductive Callback : Type :=
| CbAlert
| CbExternal (id : nat).

(** The closures given to [hideWindow] and [setTimeout]. *)
Inductive Cont : Type :=
| KRunAndHandleResult (e : Entry)      (* [() => { this.runAndHandleResult(entry); }] *)
| KRunIfResult (result : option Entry) (* [() => { if (result) { this.runAndHandleResult(result); } }] *)
| KShowMainWindow                      (* [() => Launcher.showMainWindow()] *)
| KExternal (id : nat).                (* a function of another module *)

(** The value of [this.selectEntryView]: [false] at start, a view while a
    picker is open, [null] after it was closed. *)
Inductive Sev : Type :=
| SevFalse
| SevNull
| SevView (vid : nat).

Definition truthy (v : Sev) : bool :=
  match v with SevView _ => true | _ => false end.

(** An [AutoTypeSelectView] instance: the filter it was built from, whether
    a ['result'] listener is attached, whether [remove()] was called. *)
Record View := mkView {
  vfilter : Filter;
  listening : bool;
  removed : bool
}.

(** A pending [setTimeout]. *)
Record Timer := mkTimer {
  due : nat;
  tcont : Cont
}.

(** A collaborator call whose callback has not been called yet.  The
    collaborators answer a call at most once: the entry is taken out when
    its callback is delivered. *)
Inductive Pending : Type :=
| PTitle                                                      (* [helper.getActiveWindowTitle] *)
| PResolve (e : Entry) (callback : option Callback)           (* [runner.resolve] of [run] *)
| PExecute (e : Entry) (callback : option Callback)           (* [runner.run] of [run] *)
| PValidate (e : Entry) (callback : Callback).                (* [runner.resolve] of [validate] *)

Inductive Alert : Type :=
| AlertGlobal                   (* body: [Locale.autoTypeErrorGlobal] *)
| AlertGeneric (err : Error).   (* body: [Locale.autoTypeErrorGeneric] with [err.toString()] *)

(** Observable effects, in the order the code performs them. *)
Inductive Effect : Type :=
| LogDebug (msg : string)
| LogOps (msg : string) (printed : jsstring)
| LogError (msg : string) (err : Error)
| HideApp
| ShowMainWindow
| AlertsError (a : Alert)
| SetTimeout (tid : nat) (k : Cont) (delay : nat)
| Invoke (k : Cont)
| QueryWindowTitle (id : nat)
| Parse (id : nat) (sequence : jsstring)
| Resolve (id : nat)
| Obfuscate (id : nat)
| Execute (id : nat) (ops : list Op)
| CallCallback (id : nat) (cb : Callback) (err : option Error)      (* the callback of a [run] *)
| CallValidateCallback (id : nat) (cb : Callback) (err : option Error) (* the callback of a [validate] *)
| FilesOnce (sid : nat)
| FilesOff
| ViewRender (vid : nat)
| ViewOn (vid : nat)
| ViewOff (vid : nat)
| ViewRemove (vid : nat)
| TypeError.

(** Each effect is recorded with the value [this.running] has at that
    moment. *)
Record Stamped := mkStamped {
  fx : Effect;
  atRunning : bool
}.

Inductive Handler : Type :=
| HHandleEvent
| HResetPendingEvent.

Inductive BusEvent : Type :=
| AutoTypeEvent
| MainWindowBlur
| MainWindowWillClose.

(** Constants and collaborators fixed at load time.  [Timeouts] lives in
    [../const/timeouts], the parser and the runner in [./auto-type-parser]
    and [./auto-type-runner]; none of them is part of this file, so they
    are parameters of the model. *)
Record Config := mkConfig {
  AutoTypeAfterHide : nat;
  RedrawInactiveWindow : nat;
  clearTextAutoTypeLog : bool;
  parse : jsstring -> Outcome (list Op);          (* [new AutoTypeParser(sequence).parse()] *)
  obfuscate : list Op -> Outcome (list Op)        (* [runner.obfuscate()] *)
}.

Record World := mkWorld {
  (* the [AutoType] object *)
  enabled : bool;
  selectEntryView : Sev;
  pendingEvent : option Evt;
  running : bool;
  (* collaborators *)
  cfg : Config;
  isAppFocused : bool;                         (* [Launcher.isAppFocused()]; changed by the OS only *)
  hasOpenFiles : bool;                         (* [appModel.files.hasOpenFiles()] *)
  getEntries : Filter -> list Entry;           (* [filter.getEntries()] *)
  bus : list (BusEvent * Handler);             (* listeners added to [Backbone] by [init] *)
  updateSubs : list nat;                       (* [once('update', processPendingEvent)] listeners *)
  views : gmap nat View;
  (* the event loop *)
  timers : gmap nat Timer;
  pending : gmap nat Pending;
  now : nat;
  nextId : nat;
  trace : list Stamped
}.

(** Field assignments [this.f = x]. *)
Definition set_selectEntryView (x : Sev) (w : World) : World :=
  mkWorld (enabled w) x (pendingEvent w) (running w) (cfg w) (isAppFocused w)
    (hasOpenFiles w) (getEntries w) (bus w) (updateSubs w) (views w)
    (timers w) (pending w) (now w) (nextId w) (trace w).

Definition set_pendingEvent (x : option Evt) (w : World) : World :=
  mkWorld (enabled w) (selectEntryView w) x (running w) (cfg w)
    (isAppFocused w) (hasOpenFiles w) (getEntries w) (bus w) (updateSubs w)
    (views w) (timers w) (pending w) (now w) (nextId w) (trace w).

Definition set_running (x : bool) (w : World) : World :=
  mkWorld (enabled w) (selectEntryView w) (pendingEvent w) x (cfg w)
    (isAppFocused w) (hasOpenFiles w) (getEntries w) (bus w) (updateSubs w)
    (views w) (timers w) (pending w) (now w) (nextId w) (trace w).

Definition set_isAppFocused (x : bool) (w : World) : World :=
  mkWorld (enabled w) (selectEntryView w) (pendingEvent w) (running w) (cfg w)
    x (hasOpenFiles w) (getEntries w) (bus w) (updateSubs w) (views w)
    (timers w) (pending w) (now w) (nextId w) (trace w).

Definition set_hasOpenFiles (x : bool) (w : World) : World :=
  mkWorld (enabled w) (selectEntryView w) (pendingEvent w) (running w) (cfg w)
    (isAppFocused w) x (getEntries w) (bus w) (updateSubs w) (views w)
    (timers w) (pending w) (now w) (nextId w) (trace w).

Definition set_getEntries (x : Filter -> list Entry) (w : World) : World :=
  mkWorld (enabled w) (selectEntryView w) (pendingEvent w) (running w) (cfg w)
    (isAppFocused w) (hasOpenFiles w) x (bus w) (updateSubs w) (views w)
    (timers w) (pending w) (now w) (nextId w) (trace w).

Definition set_bus (x : list (BusEvent * Handler)) (w : World) : World :=
  mkWorld (enabled w) (selectEntryView w) (pendingEvent w) (running w) (cfg w)
    (isAppFocused w) (hasOpenFiles w) (getEntries w) x (updateSubs w)
    (views w) (timers w) (pending w) (now w) (nextId w) (trace w).

Definition set_updateSubs (x : list nat) (w : World) : World :=
  mkWorld (enabled w) (selectEntryView w) (pendingEvent w) (running w) (cfg w)
    (isAppFocused w) (hasOpenFiles w) (getEntries w) (bus w) x (views w)
    (timers w) (pending w) (now w) (nextId w) (trace w).

Definition set_views (x : gmap nat View) (w : World) : World :=
  mkWorld (enabled w) (selectEntryView w) (pendingEvent w) (running w) (cfg w)
    (isAppFocused w) (hasOpenFiles w) (getEntries w) (bus w) (updateSubs w) x
    (timers w) (pending w) (now w) (nextId w) (trace w).

Definition set_timers (x : gmap nat Timer) (w : World) : World :=
  mkWorld (enabled w) (selectEntryView w) (pendingEvent w) (running w) (cfg w)
    (isAppFocused w) (hasOpenFiles w) (getEntries w) (bus w) (updateSubs w)
    (views w) x (pending w) (now w) (nextId w) (trace w).

Definition set_pending (x : gmap nat Pending) (w : World) : World :=
  mkWorld (enabled w) (selectEntryView w) (pendingEvent w) (running w) (cfg w)
    (isAppFocused w) (hasOpenFiles w) (getEntries w) (bus w) (updateSubs w)
    (views w) (timers w) x (now w) (nextId w) (trace w).

Definition set_now (x : nat) (w : World) : World :=
  mkWorld (enabled w) (selectEntryView w) (pendingEvent w) (running w) (cfg w)
    (isAppFocused w) (hasOpenFiles w) (getEntries w) (bus w) (updateSubs w)
    (views w) (timers w) (pending w) x (nextId w) (trace w).

Definition set_nextId (x : nat) (w : World) : World :=
  mkWorld (enabled w) (selectEntryView w) (pendingEvent w) (running w) (cfg w)
    (isAppFocused w) (hasOpenFiles w) (getEntries w) (bus w) (updateSubs w)
    (views w) (timers w) (pending w) (now w) x (trace w).

Definition set_trace (x : list Stamped) (w : World) : World :=
  mkWorld (enabled w) (selectEntryView w) (pendingEvent w) (running w) (cfg w)
    (isAppFocused w) (hasOpenFiles w) (getEntries w) (bus w) (updateSubs w)
    (views w) (timers w) (pending w) (now w) (nextId w) x.

(** ** Run-time primitives *)

(** Record an effect, stamped with the current [running]. *)
Definition emit (e : Effect) (w : World) : World :=
  set_trace (trace w ++ [mkStamped e (running w)]) w.

(** A fresh identity for a closure, a view or a collaborator call. *)
Definition fresh (w : World) : nat * World :=
  (nextId w, set_nextId (S (nextId w)) w).

(** [setTimeout(callback, delay)] *)
Definition setTimeout (callback : Cont) (delay : nat) (w : World) : World :=
  let '(tid, w) := fresh w in
  let w := emit (SetTimeout tid callback delay) w in
  set_timers (<[tid := mkTimer (now w + delay) callback]> (timers w)) w.

(** [Alerts.error({...})] *)
Definition alertsError (a : Alert) (w : World) : World :=
  emit (AlertsError a) w.

(** [callback && callback(err)] for the callback of run [id]. *)
Definition callCallback (id : nat) (callback : option Callback)
    (err : option Error) (w : World) : World :=
  match callback with
  | None => w
  | Some CbAlert =>
      let w := emit (CallCallback id CbAlert err) w in
      match err with
      | Some e => alertsError (AlertGeneric e) w
      | None => w
      end
  | Some (CbExternal n) => emit (CallCallback id (CbExternal n) err) w
  end.

(** ** The methods of [AutoType] *)

(** [run(entry, callback)], up to the point where [runner.resolve] has been
    called; the two nested callbacks follow. *)
Definition run (e : Entry) (callback : option Callback) (w : World) : World :=
  let '(id, w) := fresh w in
  let w := set_running true w in
  let sequence := getEffectiveAutoTypeSeq e in
  let w := emit (LogDebug "Start") w in
  let w := emit (Parse id sequence) w in
  match parse (cfg w) sequence with
  | Returned ops =>
      let w := emit (LogOps "Parsed" (printOps (clearTextAutoTypeLog (cfg w)) ops)) w in
      let w := emit (Resolve id) w in
      set_pending (<[id := PResolve e callback]> (pending w)) w
  | Thrown ex =>
      let w := set_running false w in
      let w := emit (LogError "Parse error" ex) w in
      callCallback id callback (Some ex) w
  end.

(** The callback [run] gives to [runner.run]. *)
Definition runnerRunCallback (id : nat) (callback : option Callback)
    (err : option Error) (w : World) : World :=
  let w := set_running false w in
  match err with
  | Some e =>
      let w := emit (LogError "Run error" e) w in
      callCallback id callback (Some e) w
  | None =>
      let w := emit (LogDebug "Complete") w in
      callCallback id callback None w
  end.

(** The callback [run] gives to [runner.resolve]; [ops] is [runner.ops] as
    the resolver left it. *)
Definition resolveCallback (id : nat) (e : Entry) (callback : option Callback)
    (err : option Error) (ops : list Op) (w : World) : World :=
  match err with
  | Some er =>
      let w := set_running false w in
      let w := emit (LogError "Resolve error" er) w in
      callCallback id callback (Some er) w
  | None =>
      let w := emit (LogOps "Resolved" (printOps (clearTextAutoTypeLog (cfg w)) ops)) w in
      let execute ops w :=
        let w := emit (Execute id ops) w in
        set_pending (<[id := PExecute e callback]> (pending w)) w in
      if autoTypeObfuscation e then
        let w := emit (Obfuscate id) w in
        match obfuscate (cfg w) ops with
        | Thrown ex =>
            let w := set_running false w in
            let w := emit (LogError "Obfuscate error" ex) w in
            callCallback id callback (Some ex) w
        | Returned ops' =>
            let w := emit (LogDebug "Obfuscated") w in
            execute ops' w
        end
      else execute ops w
  end.

(** [runAndHandleResult(entry)] *)
Definition runAndHandleResult (e : Entry) (w : World) : World :=
  run e (Some CbAlert) w.

(** [validate(entry, sequence, callback)] *)
Definition validate (e : Entry) (sequence : jsstring) (callback : Callback)
    (w : World) : World :=
  let '(id, w) := fresh w in
  let w := emit (Parse id sequence) w in
  match parse (cfg w) sequence with
  | Returned ops =>
      let w := emit (Resolve id) w in
      set_pending (<[id := PValidate e callback]> (pending w)) w
  | Thrown ex => emit (CallValidateCallback id callback (Some ex)) w
  end.

(** Calling one of the closures of [Cont]. *)
Definition invoke (k : Cont) (w : World) : World :=
  let w := emit (Invoke k) w in
  match k with
  | KRunAndHandleResult e => runAndHandleResult e w
  | KRunIfResult (Some result) => runAndHandleResult result w
  | KRunIfResult None => w
  | KShowMainWindow => emit ShowMainWindow w
  | KExternal _ => w
  end.

(** [hideWindow(callback)] *)
Definition hideWindow (callback : Cont) (w : World) : World :=
  let w := emit (LogDebug "Hide window") w in
  if isAppFocused w then
    let w := emit HideApp w in
    setTimeout callback (AutoTypeAfterHide (cfg w)) w
  else invoke callback w.

(** [focusMainWindow()] *)
Definition focusMainWindow (w : World) : World :=
  setTimeout KShowMainWindow (RedrawInactiveWindow (cfg w)) w.

(** The ['result'] listener that [processEventWithFilter] attaches.  It
    reads [this.selectEntryView] when it runs; on [null] or [false] the
    call of [off] raises a [TypeError] and the listener ends there. *)
Definition resultListener (result : option Entry) (w : World) : World :=
  let w := emit (LogDebug "Entry selected") w in
  match selectEntryView w with
  | SevView vid =>
      let w := emit (ViewOff vid) w in
      let w := set_views (alter (fun v => mkView (vfilter v) false (removed v)) vid (views w)) w in
      let w := emit (ViewRemove vid) w in
      let w := set_views (alter (fun v => mkView (vfilter v) (listening v) true) vid (views w)) w in
      let w := set_selectEntryView SevNull w in
      hideWindow (KRunIfResult result) w
  | _ => emit TypeError w
  end.

(** [processEventWithFilter(evt)] *)
Definition processEventWithFilter (evt : Evt) (w : World) : World :=
  let entries := getEntries w (filter evt) in
  match entries with
  | [e0] => hideWindow (KRunAndHandleResult e0) w
  | _ =>
      let w := focusMainWindow w in
      let '(vid, w) := fresh w in
      let w := emit (ViewRender vid) w in
      let w := set_views (<[vid := mkView (filter evt) false false]> (views w)) w in
      let w := set_selectEntryView (SevView vid) w in
      let w := emit (ViewOn vid) w in
      set_views (alter (fun v => mkView (vfilter v) true (removed v)) vid (views w)) w
  end.

(** [this.appModel.files.off('update', this.processPendingEvent, this)] *)
Definition filesOff (w : World) : World :=
  set_updateSubs [] (emit FilesOff w).

(** [this.appModel.files.once('update', this.processPendingEvent, this)] *)
Definition filesOnce (w : World) : World :=
  let '(sid, w) := fresh w in
  set_updateSubs (updateSubs w ++ [sid]) (emit (FilesOnce sid) w).

(** [resetPendingEvent()] *)
Definition resetPendingEvent (w : World) : World :=
  match pendingEvent w with
  | Some _ =>
      let w := set_pendingEvent None w in
      let w := filesOff w in
      emit (LogDebug "auto-type event cancelled") w
  | None => w
  end.

(** [processPendingEvent()] *)
Definition processPendingEvent (w : World) : World :=
  match pendingEvent w with
  | None => w
  | Some evt =>
      let w := emit (LogDebug "processing pending auto-type event") w in
      let w := filesOff w in
      let w := set_pendingEvent None w in
      processEventWithFilter evt w
  end.

(** The callback [selectEntryAndRun] gives to [getActiveWindowTitle],
    including the logging wrapper of [getActiveWindowTitle]. *)
Definition windowTitleCallback (err : option Error)
    (title url : option jsstring) (w : World) : World :=
  let w := match err with
           | Some e => emit (LogError "Error get window title" e) w
           | None => emit (LogDebug "Window title") w
           end in
  let filter := mkFilter title url in
  let evt := mkEvt filter in
  if negb (hasOpenFiles w) then
    let w := set_pendingEvent (Some evt) w in
    let w := filesOnce w in
    let w := emit (LogDebug "auto-type event delayed") w in
    focusMainWindow w
  else processEventWithFilter evt w.

(** [selectEntryAndRun()], with [getActiveWindowTitle(callback)] inlined up
    to the call of the helper. *)
Definition selectEntryAndRun (w : World) : World :=
  let w := emit (LogDebug "Get window title") w in
  let '(id, w) := fresh w in
  let w := emit (QueryWindowTitle id) w in
  set_pending (<[id := PTitle]> (pending w)) w.

(** [handleEvent(e)] *)
Definition handleEvent (e : option TriggerArg) (w : World) : World :=
  let entry := match e with Some a => entry a | None => None end in
  let w := emit (LogDebug "Auto type event") w in
  if running w then emit (LogDebug "Already running, skipping event") w
  else
    match entry with
    | Some entry => hideWindow (KRunAndHandleResult entry) w
    | None =>
        if truthy (selectEntryView w) then w
        else if isAppFocused w then alertsError AlertGlobal w
        else selectEntryAndRun w
    end.

(** [init(appModel)] *)
Definition init (w : World) : World :=
  if negb (enabled w) then w
  else set_bus (bus w ++ [(AutoTypeEvent, HHandleEvent);
                          (MainWindowBlur, HResetPendingEvent);
                          (MainWindowWillClose, HResetPendingEvent)]) w.

(** ** The environment

    Everything that happens to the engine from outside: API calls, Backbone
    notifications, and collaborators calling back. *)
Inductive Event : Type :=
| EvInit
| EvRun (e : Entry) (callback : option Callback)
| EvValidate (e : Entry) (sequence : jsstring) (callback : Callback)
| EvTrigger (name : BusEvent) (e : option TriggerArg)   (* [Backbone.trigger(name, e)] *)
| EvFilesUpdate                                         (* [appModel.files.trigger('update')] *)
| EvWindowTitle (id : nat) (err : option Error) (title url : option jsstring)
| EvResolved (id : nat) (err : option Error) (ops : list Op)
| EvExecuted (id : nat) (err : option Error)
| EvViewResult (vid : nat) (result : option Entry)      (* [view.trigger('result', result)] *)
| EvTimer (tid : nat)
| EvTick (dt : nat)
| EvFocus (focused : bool)
| EvFiles (open : bool) (entries : Filter -> list Entry).

Definition BusEvent_eqb (a b : BusEvent) : bool :=
  match a, b with
  | AutoTypeEvent, AutoTypeEvent
  | MainWindowBlur, MainWindowBlur
  | MainWindowWillClose, MainWindowWillClose => true
  | _, _ => false
  end.

Definition callHandler (h : Handler) (e : option TriggerArg) (w : World) : World :=
  match h with
  | HHandleEvent => handleEvent e w
  | HResetPendingEvent => resetPendingEvent w
  end.

(** [Backbone.trigger(name, e)]: the listeners registered for [name] at the
    time of the call, in registration order. *)
Definition trigger (name : BusEvent) (e : option TriggerArg) (w : World) : World :=
  fold_left (fun w '(n, h) => if BusEvent_eqb n name then callHandler h e w else w)
            (bus w) w.

(** [files.trigger('update')]: Backbone calls every listener of the list it
    read at the start; a [once] listener first removes itself, then calls
    [processPendingEvent]. *)
Definition triggerUpdate (w : World) : World :=
  fold_left (fun w sid =>
               processPendingEvent
                 (set_updateSubs (List.filter (fun s => negb (Nat.eqb s sid)) (updateSubs w)) w))
            (updateSubs w) w.

(** A timer fires once, and not before it is due. *)
Definition fireTimer (tid : nat) (w : World) : World :=
  match timers w !! tid with
  | Some t =>
      if Nat.leb (due t) (now w)
      then invoke (tcont t) (set_timers (delete tid (timers w)) w)
      else w
  | None => w
  end.

Definition deliver (ev : Event) (w : World) : World :=
  match ev with
  | EvInit => init w
  | EvRun e callback => run e callback w
  | EvValidate e sequence callback => validate e sequence callback w
  | EvTrigger name e => trigger name e w
  | EvFilesUpdate => triggerUpdate w
  | EvWindowTitle id err title url =>
      match pending w !! id with
      | Some PTitle =>
          windowTitleCallback err title url (set_pending (delete id (pending w)) w)
      | _ => w
      end
  | EvResolved id err ops =>
      match pending w !! id with
      | Some (PResolve e callback) =>
          resolveCallback id e callback err ops (set_pending (delete id (pending w)) w)
      | Some (PValidate e callback) =>
          emit (CallValidateCallback id callback err) (set_pending (delete id (pending w)) w)
      | _ => w
      end
  | EvExecuted id err =>
      match pending w !! id with
      | Some (PExecute e callback) =>
          runnerRunCallback id callback err (set_pending (delete id (pending w)) w)
      | _ => w
      end
  | EvViewResult vid result =>
      match views w !! vid with
      | Some v => if listening v then resultListener result w else w
      | None => w
      end
  | EvTimer tid => fireTimer tid w
  | EvTick dt => set_now (now w + dt) w
  | EvFocus focused => set_isAppFocused focused w
  | EvFiles open entries => set_getEntries entries (set_hasOpenFiles open w)
  end.

Definition deliverAll (evs : list Event) (w : World) : World :=
  fold_left (fun w ev => deliver ev w) evs w.

(** The engine as the module exports it, before [init]. *)
Definition initial (c : Config) (launcher : bool) : World :=
  mkWorld launcher SevFalse None false c false false (fun _ => []) [] [] ∅ ∅ ∅ 0 0 [].

(** ** Observations *)

(** Pipelines in flight: runs whose resolve or execute stage is waiting for
    its callback. *)
Definition isPipeline (p : Pending) : bool :=
  match p with
  | PResolve _ _ | PExecute _ _ => true
  | _ => false
  end.

Definition inFlight (w : World) : list nat :=
  map fst (List.filter (fun '(_, p) => isPipeline p) (map_to_list (pending w))).

(** The three fields of the engine's own state. *)
Definition engineState (w : World) : Sev * option Evt * bool :=
  (selectEntryView w, pendingEvent w, running w).

(** Calls of the callback of run [id] recorded in a trace. *)
Definition isCallOf (id : nat) (s : Stamped) : bool :=
  match fx s with
  | CallCallback id' _ _ => Nat.eqb id' id
  | _ => false
  end.

Definition callsOf (id : nat) (t : list Stamped) : list Stamped :=
  List.filter (isCallOf id) t.

(** The closures that were called, in order. *)
Definition invocations (t : list Stamped) : list Cont :=
  omap (fun s => match fx s with Invoke k => Some k | _ => None end) t.

(** The request to hide the host app. *)
Definition isHideApp (e : Effect) : bool :=
  match e with HideApp => true | _ => false end.

(** A query for the active window's title. *)
Definition isQuery (e : Effect) : bool :=
  match e with QueryWindowTitle _ => true | _ => false end.

(** Effects without their stamps. *)
Definition effects (w : World) : list Effect := map fx (trace w).

(** The error, if any, with which a run ends at its resolve stage: the
    resolver's error, else what [runner.obfuscate()] throws when the entry
    asks for obfuscation. *)
Definition resolveStageError (c : Config) (e : Entry) (err : option Error)
    (ops : list Op) : option Error :=
  match err with
  | Some er => Some er
  | None =>
      if autoTypeObfuscation e then
        match obfuscate c ops with
        | Thrown ex => Some ex
        | Returned _ => None
        end
      else None
  end.

(** No pipeline was started or ended between two worlds, and [running] is
    what it was. *)
Definition sameRuns (w w' : World) : Prop :=
  pending w' = pending w /\ running w' = running w.

(** ** The callback discipline as an invariant *)

Definition isCall (s : Stamped) : bool :=
  match fx s with
  | CallCallback _ _ _ => true
  | _ => false
  end.

(** Identities are handed out in increasing order; a run's callback is
    only ever called with [running] reset, never while one of the run's
    stages is still waiting, and never a second time. *)
Record Disciplined (w : World) : Prop := mkDisciplined {
  calls_reset : forall s, In s (trace w) -> isCall s = true -> atRunning s = false;
  calls_allocated : forall id, nextId w <= id ->
      callsOf id (trace w) = [] /\ pending w !! id = None;
  calls_not_pending : forall id, is_Some (pending w !! id) -> callsOf id (trace w) = [];
  calls_once : forall id, List.length (callsOf id (trace w)) <= 1
}.

(** ** Further observations *)

(** The deferral state: the stored trigger and the ['update'] listeners. *)
Definition sameDeferral (w w' : World) : Prop :=
  pendingEvent w' = pendingEvent w /\ updateSubs w' = updateSubs w.

(** The picker state: [selectEntryView] and the views. *)
Definition samePicker (w w' : World) : Prop :=
  selectEntryView w' = selectEntryView w /\ views w' = views w.

(** A trigger is stored exactly when an ['update'] listener is attached. *)
Definition ListenerKept (w : World) : Prop :=
  pendingEvent w = None <-> updateSubs w = [].

(** The view [selectEntryView] refers to exists, has its ['result']
    listener and has not been removed. *)
Definition PickerLive (w : World) : Prop :=
  forall vid, selectEntryView w = SevView vid ->
    exists f, views w !! vid = Some (mkView f true false).

(** While [running] is set, some run waits for its resolver or its
    executor. *)
Definition Busy (w : World) : Prop :=
  running w = true ->
  exists id p, pending w !! id = Some p /\ isPipeline p = true.

(** [running] is untouched and every waiting run still waits. *)
Definition keepsRuns (w w' : World) : Prop :=
  running w' = running w
  /\ forall id p, pending w !! id = Some p -> isPipeline p = true ->
       pending w' !! id = Some p.

(** The errors shown in generic error alerts, and the errors handed to the
    callback of [runAndHandleResult], in the order of the trace. *)
Definition genericAlerts (t : list Stamped) : list Error :=
  omap (fun s => match fx s with
                 | AlertsError (AlertGeneric e) => Some e
                 | _ => None
                 end) t.

Definition triggerFailures (t : list Stamped) : list Error :=
  omap (fun s => match fx s with
                 | CallCallback _ CbAlert (Some e) => Some e
                 | _ => None
                 end) t.

(** [w'] has the trace of [w] and more, and what was added shows one
    generic alert per failure reported to [runAndHandleResult]. *)
Definition Adds (w w' : World) : Prop :=
  exists d, trace w' = trace w ++ d /\ genericAlerts d = triggerFailures d.

(** The errors the pipeline stages of [run] log, in the order of the
    trace.  (The error of a window title query is not one of them.) *)
Definition isRunError (msg : string) : bool :=
  (String.eqb msg "Parse error" || String.eqb msg "Resolve error"
   || String.eqb msg "Obfuscate error" || String.eqb msg "Run error")%bool.

Definition runErrors (t : list Stamped) : list Error :=
  omap (fun s => match fx s with
                 | LogError msg e => if isRunError msg then Some e else None
                 | _ => None
                 end) t.

(** A call of [run] by another module, as opposed to a run that the engine
    starts itself through [runAndHandleResult]. *)
Definition isApiRun (ev : Event) : bool :=
  match ev with EvRun _ _ => true | _ => false end.

(** Every run that waits was started by [runAndHandleResult]. *)
Definition AlertRuns (w : World) : Prop :=
  forall id p, pending w !! id = Some p ->
    match p with
    | PResolve _ cb | PExecute _ cb => cb = Some CbAlert
    | _ => True
    end.

(** [w'] has the trace of [w] and more, and what was added shows one
    generic alert per error logged by a pipeline stage. *)
Definition Surfaces (w w' : World) : Prop :=
  exists d, trace w' = trace w ++ d /\ genericAlerts d = runErrors d.

(** A step of the engine from [w] to [w'] keeps both: if every run that
    waited in [w] was started by [runAndHandleResult], the same holds in
    [w'], and the step has raised one generic alert per error that a
    pipeline stage has logged. *)
Definition Keeps (w w' : World) : Prop :=
  AlertRuns w -> AlertRuns w' /\ Surfaces w w'.

(** What the start of [runAndHandleResult(e)] shows.  [w] is the world
    before, [pre] the effects performed on the way to the call, [w'] the
    world after it.  Either the sequence parsed, [running] is set and the
    run waits for its resolver; or the parser threw, the run is over and
    its error is shown in a generic alert. *)
Definition Started (e : Entry) (pre : list Effect) (w w' : World) : Prop :=
  let id := nextId w in
  let sequence := getEffectiveAutoTypeSeq e in
  match parse (cfg w) sequence with
  | Returned ops =>
      effects w' = effects w ++ pre
                   ++ [LogDebug "Start"; Parse id sequence;
                       LogOps "Parsed" (printOps (clearTextAutoTypeLog (cfg w)) ops);
                       Resolve id]
      /\ running w' = true
      /\ pending w' = <[id := PResolve e (Some CbAlert)]> (pending w)
  | Thrown ex =>
      effects w' = effects w ++ pre
                   ++ [LogDebug "Start"; Parse id sequence; LogError "Parse error" ex;
                       CallCallback id CbAlert (Some ex); AlertsError (AlertGeneric ex)]
      /\ running w' = false
      /\ pending w' = pending w
  end.

(** What a call of the closure [k] shows, with [w], [pre] and [w'] as in
    [Started]: the call itself, then the body of the closure.  The two
    running closures start the run of their entry, the closure of a picker
    that was cancelled does nothing, the closure of [focusMainWindow] asks
    the launcher for the main window; of a function of another module only
    the call is seen. *)
Definition Called (k : Cont) (pre : list Effect) (w w' : World) : Prop :=
  match k with
  | KRunAndHandleResult e | KRunIfResult (Some e) => Started e (pre ++ [Invoke k]) w w'
  | KRunIfResult None | KExternal _ =>
      effects w' = effects w ++ pre ++ [Invoke k] /\ sameRuns w w'
  | KShowMainWindow =>
      effects w' = effects w ++ pre ++ [Invoke k; ShowMainWindow] /\ sameRuns w w'
  end.

(** API calls and bus notifications that reach the engine only through
    [init]'s wiring. *)
Definition isNotification (ev : Event) : bool :=
  match ev with
  | EvInit | EvTrigger _ _ => true
  | _ => false
  end.

(** The three listeners one call of [init] adds. *)
Definition wiring : list (BusEvent * Handler) :=
  [(AutoTypeEvent, HHandleEvent);
   (MainWindowBlur, HResetPendingEvent);
   (MainWindowWillClose, HResetPendingEvent)].

(** A call of the executor. *)
Definition isExecute (e : Effect) : bool :=
  match e with Execute _ _ => true | _ => false end.

(** ** Sample data *)

Module Sample.
(** A parser that accepts everything except the sequence ["{"], and an
    obfuscator that rejects the empty tree. *)
Definition parser (sequence : jsstring) : Outcome (list Op) :=
  match sequence with
  | [123%N] => Thrown "Bad sequence"
  | _ => Returned [OpText None sequence]
  end.

Definition obfuscator (ops : list Op) : Outcome (list Op) :=
  match ops with
  | [] => Thrown "Nothing to obfuscate"
  | _ => Returned [OpGroup None ops]
  end.

Definition config : Config := mkConfig 100 20 false parser obfuscator.

Definition alice : Entry := mkEntry 1 (js "{USERNAME}{TAB}{PASSWORD}{ENTER}") false.
Definition bob : Entry := mkEntry 2 (js "{PASSWORD}{ENTER}") true.
Definition broken : Entry := mkEntry 3 (js "{") false.

Definition direct (e : Entry) : Event :=
  EvTrigger AutoTypeEvent (Some (mkTriggerArg (Some e))).
Definition global : Event := EvTrigger AutoTypeEvent None.

Definition window : Filter := mkFilter (Some (js "Login")) (Some (js "https://example.org")).

(** The engine after [init], host window not focused, no file open. *)
Definition idle : World := init (initial config true).

(** A file is open, nothing in it matches any window; an entry-less
    trigger arrives.  Then the window title query answers. *)
Definition noMatch : list Event :=
  [EvFiles true (fun _ => []); global].

Definition noMatchTitle : Event :=
  EvWindowTitle 0 None (title window) (url window).

(** An entry-less trigger while no file is open, answered by the window
    title query; afterwards a file with one matching entry is opened. *)
Definition deferred : list Event :=
  [global; EvWindowTitle 0 None (title window) (url window);
   EvFiles true (fun f => match title f with Some _ => [alice] | None => [] end)].

(** A file with two matching entries is open when an entry-less trigger
    arrives and the window title query answers: the picker opens. *)
Definition twoMatches : list Event :=
  [EvFiles true (fun _ => [alice; bob]); global;
   EvWindowTitle 0 None (title window) (url window)].

(** Two entry-less triggers in a row, both before the first window title
    query has answered; the two answers name different windows.  Each
    answer opens a picker of its own.  Then the two redraw delays elapse
    and the main window, now shown, has the focus. *)
Definition otherWindow : Filter := mkFilter (Some (js "Mail")) None.

Definition twoPickers : list Event :=
  [EvFiles true (fun _ => [alice; bob]); global; global;
   EvWindowTitle 0 None (title window) (url window);
   EvWindowTitle 1 None (title otherWindow) (url otherWindow);
   EvTick 20; EvTimer 2; EvTimer 4; EvFocus true].

(** A direct trigger whose run is resolved and executed without error. *)
Definition completed : list Event :=
  [direct alice; EvResolved 0 None [OpText None (js "alice")]; EvExecuted 0 None].

(** Two direct triggers in a row while the host window has focus, then
    both hide delays elapse. *)
Definition doubleTrigger : list Event :=
  [EvFocus true; direct alice; direct bob; EvTick 100; EvTimer 0; EvTimer 1].
End Sample.
(** ** Proof support *)

(** Compute field assignments under projections. *)
Ltac wsimpl :=
  cbn [alertsError emit fresh set_selectEntryView set_pendingEvent set_running
       set_isAppFocused set_hasOpenFiles set_getEntries set_bus set_updateSubs
       set_views set_timers set_pending set_now set_nextId set_trace
       enabled selectEntryView pendingEvent running cfg isAppFocused hasOpenFiles
       getEntries bus updateSubs views timers pending now nextId trace fx atRunning
       fst snd] in *.

(** Case analysis on the scrutinee of every [match] in the goal. *)
Ltac cases :=
  repeat match goal with
         | |- context [match ?x with _ => _ end] => destruct x eqn:?; wsimpl
         end.

(** ** Elementary facts *)

Lemma invocations_app (t1 t2 : list Stamped) :
  invocations (t1 ++ t2) = invocations t1 ++ invocations t2.
Proof. unfold invocations. apply omap_app. Qed.

Lemma callsOf_app (id : nat) (t1 t2 : list Stamped) :
  callsOf id (t1 ++ t2) = callsOf id t1 ++ callsOf id t2.
Proof. unfold callsOf. apply List.filter_app. Qed.

(** ** Timers and continuations *)

Lemma invoke_invocations k w :
  invocations (trace (invoke k w)) = invocations (trace w) ++ [k].
Proof.
  unfold invoke, runAndHandleResult, run, callCallback.
  destruct k as [e|[r|]| |n]; wsimpl;
    cases;
    rewrite ?invocations_app; simpl; rewrite ?app_nil_r; try reflexivity.
Qed.

Lemma run_no_timers e cb w : timers (run e cb w) = timers w.
Proof.
  unfold run, callCallback; wsimpl.
  cases;
    reflexivity.
Qed.

Lemma invoke_timers k w : timers (invoke k w) = timers w.
Proof.
  unfold invoke, runAndHandleResult.
  destruct k as [e|[r|]| |n]; rewrite ?run_no_timers; reflexivity.
Qed.

Lemma invoke_no_hide k w :
  exists rest, effects (invoke k w) = effects w ++ Invoke k :: rest
               /\ List.filter isHideApp rest = [].
Proof.
  unfold invoke, runAndHandleResult, run, callCallback, effects.
  destruct k as [e|[r|]| |n]; wsimpl;
    cases;
    rewrite ?map_app, <- ?app_assoc; simpl; eexists; (split; [reflexivity|reflexivity]).
Qed.

Lemma run_keeps_picker (e : Entry) (cb : option Callback) (w : World) :
  views (run e cb w) = views w /\ selectEntryView (run e cb w) = selectEntryView w.
Proof. unfold run, callCallback. wsimpl. cases; split; reflexivity. Qed.

(** [run] as [runAndHandleResult] calls it, in a world [w0] that differs
    from [w] by the effects [pre]. *)
Lemma run_started (e : Entry) (pre : list Effect) (w w0 : World) :
  effects w0 = effects w ++ pre -> nextId w0 = nextId w -> cfg w0 = cfg w ->
  pending w0 = pending w ->
  Started e pre w (run e (Some CbAlert) w0).
Proof.
  intros Heff Hid Hcfg Hpend. unfold Started, run, callCallback, effects in *. wsimpl.
  rewrite Hcfg, Hid, Hpend.
  destruct (parse (cfg w) (getEffectiveAutoTypeSeq e)) as [ops|ex]; wsimpl;
    rewrite !map_app, Heff, <- !app_assoc; simpl; repeat split; assumption.
Qed.

(** The closures do what their source text says. *)
Lemma invoke_called (k : Cont) (pre : list Effect) (w w0 : World) :
  effects w0 = effects w ++ pre -> nextId w0 = nextId w -> cfg w0 = cfg w ->
  pending w0 = pending w -> running w0 = running w ->
  Called k pre w (invoke k w0).
Proof.
  intros Heff Hid Hcfg Hpend Hrun. unfold Called, invoke, runAndHandleResult.
  destruct k as [e|[r|]| |n].
  - apply run_started; unfold effects in *; wsimpl;
      rewrite ?map_app, ?Heff, <- ?app_assoc; auto.
  - apply run_started; unfold effects in *; wsimpl;
      rewrite ?map_app, ?Heff, <- ?app_assoc; auto.
  - unfold effects, sameRuns in *. wsimpl. rewrite map_app, Heff, <- app_assoc. auto.
  - unfold effects, sameRuns in *. wsimpl. rewrite !map_app, Heff, <- !app_assoc. auto.
  - unfold effects, sameRuns in *. wsimpl. rewrite map_app, Heff, <- app_assoc. auto.
Qed.

(** What [Started] says once the outcome of the parser is known. *)
Lemma Started_parsed (e : Entry) (pre : list Effect) (ops : list Op) (w w' : World) :
  parse (cfg w) (getEffectiveAutoTypeSeq e) = Returned ops ->
  Started e pre w w' ->
  running w' = true /\ pending w' !! nextId w = Some (PResolve e (Some CbAlert)).
Proof.
  intros Hparse H. unfold Started in H. cbv zeta in H. rewrite Hparse in H.
  destruct H as (_ & Hr & Hp). split; [exact Hr|]. rewrite Hp. apply lookup_insert_eq.
Qed.

(** C7.  [hideWindow(continuation)].  Host focused: the launcher is asked
    to hide the app, the continuation is not called but handed to one timer
    with the configured delay [Timeouts.AutoTypeAfterHide], and no run has
    started; that timer does nothing before it is due; fired at or after
    its due time it calls the continuation, whose body then runs, and is
    gone afterwards.  Host not focused: no hide, no timer, the continuation
    is called at once and its body runs.  Either way the continuation is
    called exactly one time. *)
Theorem hideWindow_invokes_continuation_once (k : Cont) (w : World) :
  let w' := hideWindow k w in
  let tid := nextId w in
  let t := mkTimer (now w + AutoTypeAfterHide (cfg w)) k in
  if isAppFocused w then
    effects w' = effects w ++ [LogDebug "Hide window"; HideApp;
                               SetTimeout tid k (AutoTypeAfterHide (cfg w))]
    /\ timers w' = <[tid := t]> (timers w)
    /\ sameRuns w w'
    /\ invocations (trace w') = invocations (trace w)
    /\ forall w2, timers w2 !! tid = Some t ->
         (now w2 < due t -> deliver (EvTimer tid) w2 = w2)
         /\ (due t <= now w2 ->
             let w3 := deliver (EvTimer tid) w2 in
             Called k [] w2 w3
             /\ invocations (trace w3) = invocations (trace w2) ++ [k]
             /\ timers w3 = delete tid (timers w2)
             /\ deliver (EvTimer tid) w3 = w3)
  else
    Called k [LogDebug "Hide window"] w w'
    /\ (exists rest, effects w' = effects w ++ LogDebug "Hide window" :: Invoke k :: rest
                     /\ List.filter isHideApp rest = [])
    /\ timers w' = timers w
    /\ invocations (trace w') = invocations (trace w) ++ [k].
Proof.
  intros w' tid t. subst w'. unfold hideWindow.
  destruct (isAppFocused w) eqn:Hf; wsimpl; rewrite Hf.
  - unfold setTimeout, effects, sameRuns; wsimpl.
    split; [rewrite !map_app, <- !app_assoc; reflexivity|].
    split; [reflexivity|].
    split; [split; reflexivity|].
    split; [rewrite !invocations_app; simpl; rewrite !app_nil_r; reflexivity|].
    intros w2 Ht. unfold deliver, fireTimer. rewrite Ht. simpl due. split.
    + intros Hlt. apply Nat.leb_gt in Hlt. rewrite Hlt. reflexivity.
    + intros Hle. apply Nat.leb_le in Hle. rewrite Hle.
      split; [apply invoke_called; wsimpl; try reflexivity;
              unfold effects; wsimpl; rewrite app_nil_r; reflexivity|].
      rewrite invoke_invocations, invoke_timers. wsimpl.
      split; [reflexivity|]. split; [reflexivity|].
      rewrite lookup_delete_eq. reflexivity.
  - split; [apply invoke_called; wsimpl; try reflexivity;
            unfold effects; wsimpl; rewrite map_app; reflexivity|].
    split.
    + destruct (invoke_no_hide k (emit (LogDebug "Hide window") w)) as (rest & Heq & Hno).
      exists rest. unfold emit in Heq. split; [|exact Hno].
      etransitivity; [exact Heq|]. unfold effects; wsimpl.
      rewrite map_app, <- app_assoc. reflexivity.
    + rewrite invoke_timers, invoke_invocations. wsimpl.
      rewrite invocations_app, app_nil_r. split; reflexivity.
Qed.

(** The hide delay of [Sample.config] at work: [hideWindow] starts no run;
    its timer does nothing at time 99, and at time 100 it starts the run of
    the entry. *)
Lemma hideWindow_invokes_continuation_once_witness :
  let w := set_isAppFocused true Sample.idle in
  let w' := hideWindow (KRunAndHandleResult Sample.alice) w in
  let early := deliver (EvTick 99) w' in
  let late := deliver (EvTick 100) w' in
  running w' = false
  /\ deliver (EvTimer 0) early = early
  /\ running (deliver (EvTimer 0) late) = true
  /\ pending (deliver (EvTimer 0) late) !! 1 = Some (PResolve Sample.alice (Some CbAlert)).
Proof.
  intros w w' early late.
  pose proof (hideWindow_invokes_continuation_once (KRunAndHandleResult Sample.alice) w) as H.
  cbv zeta in H. change (isAppFocused w) with true in H. cbv iota in H.
  change (nextId w) with 0 in H.
  destruct H as (_ & _ & [_ Hrun] & _ & Hfire).
  split; [exact Hrun|].
  destruct (Hfire early) as [Hearly _]; [reflexivity|].
  split; [apply Hearly; vm_compute; lia|].
  destruct (Hfire late) as [_ Hdue]; [reflexivity|].
  destruct Hdue as (Hcalled & _); [vm_compute; lia|].
  unfold Called, Started in Hcalled. cbv zeta in Hcalled.
  change (parse (cfg late) (getEffectiveAutoTypeSeq Sample.alice))
    with (Returned [OpText None (getEffectiveAutoTypeSeq Sample.alice)]) in Hcalled.
  destruct Hcalled as (_ & Hr & Hp).
  split; [exact Hr|].
  rewrite Hp. change (nextId late) with 1. apply lookup_insert_eq.
Defined.

(** ** Triggers *)

(** The guard of [handleEvent]: while [running] is set a trigger only
    writes two debug lines. *)
Lemma handleEvent_running_skips (e : option TriggerArg) (w : World) :
  running w = true ->
  handleEvent e w =
  emit (LogDebug "Already running, skipping event") (emit (LogDebug "Auto type event") w).
Proof. intros Hr. unfold handleEvent. wsimpl. rewrite Hr. reflexivity. Qed.

Lemma handleEvent_running_frame (e : option TriggerArg) (w : World) :
  running w = true ->
  let w' := handleEvent e w in
  engineState w' = engineState w /\ pending w' = pending w
  /\ timers w' = timers w /\ views w' = views w /\ updateSubs w' = updateSubs w.
Proof.
  intros Hr w'. subst w'. rewrite handleEvent_running_skips by assumption.
  unfold engineState. wsimpl. repeat split.
Qed.

(** C1.  The single-flight claim fails on the double trigger: both triggers
    reach [handleEvent] while [running] is still false, because the flag is
    only set when [run] starts after the hide delay; after both timers fired
    two pipelines wait for their resolver at the same time. *)
Theorem double_trigger_two_pipelines_in_flight :
  let w := deliverAll Sample.doubleTrigger Sample.idle in
  inFlight w = [2; 3]
  /\ pending w !! 2 = Some (PResolve Sample.alice (Some CbAlert))
  /\ pending w !! 3 = Some (PResolve Sample.bob (Some CbAlert))
  /\ List.filter (fun s => match fx s with LogDebug "Auto type event" => true | _ => false end)
       (trace w)
     = [mkStamped (LogDebug "Auto type event") false;
        mkStamped (LogDebug "Auto type event") false].
Proof. vm_compute. repeat split. Qed.

(** C10.  A direct trigger that arrives while a picker is open and nothing
    is running is not dropped: [handleEvent] goes on to [hideWindow] with
    the continuation that runs the entry, and the picker stays where it is.
    With the host unfocused the run of the entry starts at once: its
    sequence is parsed and the run waits for its resolver with [running]
    set (or the parse error is shown).  With the host focused the app is
    hidden and the run starts the same way when the hide timer fires, the
    picker still untouched.  The value of [selectEntryView] plays no part in
    a direct trigger. *)
Theorem handleEvent_direct_trigger_with_open_picker
    (a : TriggerArg) (e : Entry) (vid : nat) (w : World)
    (Hidle : running w = false)
    (Hentry : entry a = Some e)
    (Hpicker : selectEntryView w = SevView vid) :
  let k := KRunAndHandleResult e in
  let w0 := emit (LogDebug "Auto type event") w in
  let w' := handleEvent (Some a) w in
  let tid := nextId w in
  let t := mkTimer (now w + AutoTypeAfterHide (cfg w)) k in
  w' = hideWindow k w0
  /\ selectEntryView w' = SevView vid
  /\ views w' = views w
  /\ (if isAppFocused w
      then effects w' = effects w ++ [LogDebug "Auto type event"; LogDebug "Hide window";
                                      HideApp; SetTimeout tid k (AutoTypeAfterHide (cfg w))]
           /\ timers w' = <[tid := t]> (timers w)
           /\ sameRuns w w'
           /\ forall w2, timers w2 !! tid = Some t -> due t <= now w2 ->
                let w3 := deliver (EvTimer tid) w2 in
                Started e [Invoke k] w2 w3
                /\ selectEntryView w3 = selectEntryView w2 /\ views w3 = views w2
      else Started e [LogDebug "Auto type event"; LogDebug "Hide window"; Invoke k] w w'
           /\ timers w' = timers w
           /\ w' = run e (Some CbAlert)
                     (emit (Invoke k) (emit (LogDebug "Hide window") w0)))
  /\ forall v, handleEvent (Some a) (set_selectEntryView v w)
               = set_selectEntryView v w'.
Proof.
  intros k w0 w' tid t. subst k w0 w' tid t.
  assert (Hh : forall v, handleEvent (Some a) (set_selectEntryView v w)
                         = hideWindow (KRunAndHandleResult e)
                             (emit (LogDebug "Auto type event") (set_selectEntryView v w))).
  { intros v. unfold handleEvent. wsimpl. rewrite Hidle, Hentry. reflexivity. }
  assert (H0 : handleEvent (Some a) w
               = hideWindow (KRunAndHandleResult e) (emit (LogDebug "Auto type event") w)).
  { unfold handleEvent. wsimpl. rewrite Hidle, Hentry. reflexivity. }
  rewrite H0. split; [reflexivity|].
  unfold hideWindow. wsimpl.
  destruct (isAppFocused w) eqn:Hf; wsimpl.
  - unfold setTimeout, sameRuns, effects. wsimpl.
    split; [assumption|]. split; [reflexivity|]. split.
    + split; [rewrite !map_app, <- !app_assoc; reflexivity|].
      split; [reflexivity|]. split; [split; reflexivity|].
      intros w2 Ht Hd. simpl deliver. unfold fireTimer. rewrite Ht.
      apply Nat.leb_le in Hd. simpl due in Hd. simpl due. rewrite Hd. simpl tcont.
      unfold invoke, runAndHandleResult.
      split; [apply run_started; wsimpl; try reflexivity;
              unfold effects; wsimpl; rewrite map_app; reflexivity|].
      match goal with
      | |- context [run ?e' ?cb ?c] =>
          destruct (run_keeps_picker e' cb c) as [Hv Hs]; rewrite Hv, Hs
      end.
      split; reflexivity.
    + intros v. rewrite Hh. unfold hideWindow, setTimeout. wsimpl. rewrite Hf. reflexivity.
  - unfold invoke, runAndHandleResult.
    match goal with
    | |- context [run ?e' ?cb ?c] =>
        destruct (run_keeps_picker e' cb c) as [Hv Hs]; rewrite Hv, Hs
    end.
    wsimpl. split; [assumption|]. split; [reflexivity|]. split.
    + split; [apply run_started; wsimpl; try reflexivity;
              unfold effects; wsimpl; rewrite !map_app, <- !app_assoc; reflexivity|].
      split; [rewrite run_no_timers; reflexivity|reflexivity].
    + intros v. rewrite Hh.
      unfold hideWindow, invoke, runAndHandleResult, run, callCallback. wsimpl. rewrite Hf.
      cases; reflexivity.
Qed.

(** Two candidates have opened the picker; a direct trigger for one entry
    arrives: the picker stays, and the run of the entry waits for its
    resolver. *)
Lemma handleEvent_direct_trigger_with_open_picker_witness :
  let w := deliverAll Sample.twoMatches Sample.idle in
  let w' := handleEvent (Some (mkTriggerArg (Some Sample.alice))) w in
  selectEntryView w = SevView 2
  /\ selectEntryView w' = SevView 2
  /\ running w' = true
  /\ pending w' !! 3 = Some (PResolve Sample.alice (Some CbAlert)).
Proof.
  intros w w'.
  assert (Hidle : running w = false) by (vm_compute; reflexivity).
  assert (Hpicker : selectEntryView w = SevView 2) by (vm_compute; reflexivity).
  assert (Hf : isAppFocused w = false) by (vm_compute; reflexivity).
  assert (Hid : nextId w = 3) by (vm_compute; reflexivity).
  assert (Hparse : parse (cfg w) (getEffectiveAutoTypeSeq Sample.alice)
                   = Returned [OpText None (getEffectiveAutoTypeSeq Sample.alice)])
    by (vm_compute; reflexivity).
  pose proof (handleEvent_direct_trigger_with_open_picker
                (mkTriggerArg (Some Sample.alice)) Sample.alice 2 w
                Hidle eq_refl Hpicker) as H.
  cbv zeta in H. fold w' in H.
  destruct H as (_ & Hs & _ & Hb & _).
  rewrite Hf in Hb. destruct Hb as (Hstarted & _).
  destruct (Started_parsed _ _ _ _ _ Hparse Hstarted) as [Hr Hp].
  rewrite Hid in Hp.
  split; [exact Hpicker|]. split; [exact Hs|]. split; [exact Hr|exact Hp].
Defined.

(** ** Log redaction *)

Example printOps_demo :
  printOps false [OpText (Some [js "+"]) (js "ab"); OpCmd None (js "key") (js "TAB")]
  = js "[+**,key:TAB]".
Proof. reflexivity. Qed.

Lemma printOp_text_clear (m : Mod) (value : jsstring) :
  printOp true (OpText m value) = printMod m ++ value.
Proof. reflexivity. Qed.

Lemma printOp_command (clear : bool) (m : Mod) (type value : jsstring) :
  printOp clear (OpCmd m type value) = printMod m ++ type ++ js ":" ++ value.
Proof. reflexivity. Qed.

Lemma printOp_group (clear : bool) (m : Mod) (value : list Op) :
  printOp clear (OpGroup m value) = printMod m ++ printOps clear value.
Proof. reflexivity. Qed.

Lemma replaceDotStar_masks (value : jsstring) :
  Forall (fun c => isLineTerminator c = false) value ->
  replaceDotStar value = replicate (List.length value) star.
Proof.
  induction 1 as [|c value Hc _ IH]; [reflexivity|].
  simpl. rewrite Hc. f_equal. exact IH.
Qed.

Lemma printOp_text_masked (m : Mod) (value : jsstring) :
  Forall (fun c => isLineTerminator c = false) value ->
  printOp false (OpText m value) = printMod m ++ replicate (List.length value) star.
Proof. intros H. simpl. rewrite replaceDotStar_masks by assumption. reflexivity. Qed.

(** Redaction changes text literals only, at any depth. *)
Lemma printOp_masks_only_text (op : Op) :
  printOp false op = printOp true (maskOp op).
Proof.
  revert op. fix IH 1. intros [m value|m value|m type value];
    cbn [printOp maskOp]; try reflexivity.
  assert (Hmap : map (printOp false) value
                 = map (fun o => printOp true (maskOp o)) value).
  { induction value as [|o value IHvalue]; cbn [map]; [reflexivity|].
    rewrite IH, IHvalue. reflexivity. }
  rewrite map_map, Hmap. reflexivity.
Qed.

(** C8.  With the debug flag unset the mask of [printOp] is
    [value.replace(/./g, '*')], and [.] does not match line terminators: a
    text literal with a line feed is logged with the line feed in place, so
    not every character of the literal becomes ['*']. *)
Theorem printOps_keeps_line_terminators :
  let secret := OpText None (js "pass" ++ [10%N] ++ js "word") in
  printOps false [secret] = js "[****" ++ [10%N] ++ js "****]"
  /\ printOps false [secret] <> js "[*********]".
Proof. split; [reflexivity|discriminate]. Qed.

(** ** The pipeline driver *)

Lemma callsOf_callCallback (id : nat) (cb : Callback) (err : option Error) (w : World) :
  trace (callCallback id (Some cb) err w)
  = trace w ++ mkStamped (CallCallback id cb err) (running w)
       :: match cb, err with
          | CbAlert, Some e => [mkStamped (AlertsError (AlertGeneric e)) (running w)]
          | _, _ => []
          end.
Proof.
  unfold callCallback. destruct cb, err; wsimpl; rewrite <- ?app_assoc; reflexivity.
Qed.

Lemma callCallback_fields (id : nat) (cb : option Callback) (err : option Error) (w : World) :
  let w' := callCallback id cb err w in
  running w' = running w /\ pending w' = pending w /\ nextId w' = nextId w
  /\ selectEntryView w' = selectEntryView w /\ pendingEvent w' = pendingEvent w.
Proof. unfold callCallback. destruct cb as [[|n]|], err; wsimpl; repeat split. Qed.

Lemma callsOf_one (id : nat) (cb : Callback) (err : option Error) (b : bool) rest :
  (forall s, In s rest -> isCallOf id s = false) ->
  callsOf id (mkStamped (CallCallback id cb err) b :: rest)
  = [mkStamped (CallCallback id cb err) b].
Proof.
  intros H. unfold callsOf. simpl. unfold isCallOf at 1. simpl. rewrite Nat.eqb_refl.
  f_equal. induction rest as [|s rest IH]; [reflexivity|].
  simpl. rewrite H by (left; reflexivity). apply IH. intros s' Hs. apply H. right. exact Hs.
Qed.

(** Every failure path and the success path end the same way: [running]
    has been reset, then the callback is called. *)
Lemma callback_after_reset (id : nat) (cb : Callback) (err : option Error)
    (w : World) (before : list Stamped) (p : gmap nat Pending) :
  running w = false ->
  pending w = p ->
  callsOf id (trace w) = callsOf id before ->
  let w' := callCallback id (Some cb) err w in
  running w' = false /\ pending w' = p
  /\ callsOf id (trace w')
     = callsOf id before ++ [mkStamped (CallCallback id cb err) false].
Proof.
  intros Hr <- Hc w'. subst w'.
  destruct (callCallback_fields id (Some cb) err w) as (Hr' & Hp' & _).
  rewrite Hr', Hp', callsOf_callCallback, callsOf_app, Hc, Hr.
  split; [reflexivity|]. split; [reflexivity|]. f_equal.
  apply callsOf_one. intros s Hs. destruct cb, err; simpl in Hs; try tauto.
  destruct Hs as [<-|[]]. reflexivity.
Qed.

Ltac no_new_calls :=
  wsimpl; rewrite <- ?app_assoc, ?callsOf_app; simpl; rewrite ?app_nil_r; reflexivity.

Lemma run_stage (e : Entry) (cb : Callback) (w : World) :
  let id := nextId w in
  let w1 := run e (Some cb) w in
  (exists rest, trace w1 = trace w ++ mkStamped (LogDebug "Start") true :: rest)
  /\ match parse (cfg w) (getEffectiveAutoTypeSeq e) with
     | Thrown ex =>
         running w1 = false /\ pending w1 = pending w
         /\ callsOf id (trace w1)
            = callsOf id (trace w) ++ [mkStamped (CallCallback id cb (Some ex)) false]
     | Returned _ =>
         running w1 = true /\ pending w1 = <[id := PResolve e (Some cb)]> (pending w)
         /\ callsOf id (trace w1) = callsOf id (trace w)
     end.
Proof.
  intros id w1. subst id w1. unfold run. wsimpl.
  destruct (parse (cfg w) (getEffectiveAutoTypeSeq e)) as [ops|ex]; wsimpl.
  - split; [eexists; rewrite <- !app_assoc; reflexivity|].
    split; [reflexivity|]. split; [reflexivity|]. no_new_calls.
  - split.
    + rewrite callsOf_callCallback. wsimpl.
      eexists. rewrite <- !app_assoc. reflexivity.
    + apply callback_after_reset; [reflexivity|reflexivity|no_new_calls].
Qed.

Lemma resolve_stage (id : nat) (e : Entry) (cb : Callback) (err : option Error)
    (ops : list Op) (w2 : World) :
  pending w2 !! id = Some (PResolve e (Some cb)) ->
  let w3 := deliver (EvResolved id err ops) w2 in
  match resolveStageError (cfg w2) e err ops with
  | Some er =>
      running w3 = false /\ pending w3 = delete id (pending w2)
      /\ callsOf id (trace w3)
         = callsOf id (trace w2) ++ [mkStamped (CallCallback id cb (Some er)) false]
  | None =>
      running w3 = running w2
      /\ pending w3 = <[id := PExecute e (Some cb)]> (pending w2)
      /\ callsOf id (trace w3) = callsOf id (trace w2)
  end.
Proof.
  intros Hp w3. subst w3. unfold deliver. rewrite Hp.
  unfold resolveCallback, resolveStageError. wsimpl.
  destruct err as [er|]; [|destruct (autoTypeObfuscation e);
                            [destruct (obfuscate (cfg w2) ops) as [ops'|ex]|]]; wsimpl.
  - apply callback_after_reset; [reflexivity|reflexivity|no_new_calls].
  - split; [reflexivity|]. split; [apply insert_delete_eq|]. no_new_calls.
  - apply callback_after_reset; [reflexivity|reflexivity|no_new_calls].
  - split; [reflexivity|]. split; [apply insert_delete_eq|]. no_new_calls.
Qed.

Lemma execute_stage (id : nat) (e : Entry) (cb : Callback) (err : option Error)
    (w3 : World) :
  pending w3 !! id = Some (PExecute e (Some cb)) ->
  let w4 := deliver (EvExecuted id err) w3 in
  running w4 = false /\ pending w4 = delete id (pending w3)
  /\ callsOf id (trace w4)
     = callsOf id (trace w3) ++ [mkStamped (CallCallback id cb err) false].
Proof.
  intros Hp w4. subst w4. unfold deliver. rewrite Hp. unfold runnerRunCallback. wsimpl.
  destruct err as [er|]; wsimpl;
    (apply callback_after_reset; [reflexivity|reflexivity|no_new_calls]).
Qed.

(** ** Preservation of the callback discipline *)

Lemma isCallOf_isCall (id : nat) (s : Stamped) : isCallOf id s = true -> isCall s = true.
Proof. unfold isCallOf, isCall. destruct (fx s); congruence. Qed.

Lemma callsOf_nil_of_no_call (id : nat) (s : Stamped) :
  isCall s = false -> callsOf id [s] = [].
Proof.
  unfold callsOf. simpl. intros H.
  destruct (isCallOf id s) eqn:E; [|reflexivity].
  apply isCallOf_isCall in E. congruence.
Qed.

Lemma Disciplined_emit (e : Effect) (w : World) :
  Disciplined w -> isCall (mkStamped e (running w)) = false -> Disciplined (emit e w).
Proof.
  intros [H1 H2 H3 H4] He. constructor; wsimpl.
  - intros s Hs Hc. apply in_app_or in Hs. destruct Hs as [Hs|[<-|[]]]; [auto|congruence].
  - intros id Hid. rewrite callsOf_app, callsOf_nil_of_no_call, app_nil_r by assumption. auto.
  - intros id Hid. rewrite callsOf_app, callsOf_nil_of_no_call, app_nil_r by assumption. auto.
  - intros id. rewrite callsOf_app, callsOf_nil_of_no_call, app_nil_r by assumption. auto.
Qed.

Lemma Disciplined_nextId (n : nat) (w : World) :
  Disciplined w -> nextId w <= n -> Disciplined (set_nextId n w).
Proof.
  intros [H1 H2 H3 H4] Hn. constructor; wsimpl; auto.
  intros id Hid. apply H2. lia.
Qed.

Lemma Disciplined_pending (m : gmap nat Pending) (w : World) :
  Disciplined w ->
  (forall id, is_Some (m !! id) ->
     is_Some (pending w !! id) \/ (id < nextId w /\ callsOf id (trace w) = [])) ->
  Disciplined (set_pending m w).
Proof.
  intros [H1 H2 H3 H4] Hm. constructor; wsimpl; auto.
  - intros id Hid. split; [apply H2; assumption|].
    destruct (m !! id) eqn:E; [|reflexivity].
    destruct (Hm id) as [Hs|[Hlt _]]; [rewrite E; eauto| |lia].
    destruct (H2 id Hid) as [_ Hnone]. rewrite Hnone in Hs. destruct Hs; discriminate.
  - intros id Hid. destruct (Hm id Hid) as [Hs|[_ Hc]]; auto.
Qed.

Lemma Disciplined_call (id : nat) (cb : Callback) (err : option Error) (w : World) :
  Disciplined w ->
  running w = false -> id < nextId w ->
  callsOf id (trace w) = [] -> pending w !! id = None ->
  Disciplined (emit (CallCallback id cb err) w).
Proof.
  intros [H1 H2 H3 H4] Hr Hid Hc Hp.
  assert (Hcalls : forall id', callsOf id' [mkStamped (CallCallback id cb err) (running w)]
                     = if Nat.eqb id id' then [mkStamped (CallCallback id cb err) (running w)]
                       else []).
  { intros id'. unfold callsOf, isCallOf. simpl. reflexivity. }
  constructor; wsimpl.
  - intros s Hs Hcall. apply in_app_or in Hs. destruct Hs as [Hs|[<-|[]]]; [auto|exact Hr].
  - intros id' Hid'. rewrite callsOf_app, Hcalls.
    destruct (Nat.eqb_spec id id'); [lia|]. rewrite app_nil_r. auto.
  - intros id' Hs. rewrite callsOf_app, Hcalls.
    destruct (Nat.eqb_spec id id') as [<-|_].
    + rewrite Hp in Hs. destruct Hs; discriminate.
    + rewrite app_nil_r. auto.
  - intros id'. rewrite callsOf_app, Hcalls, length_app.
    destruct (Nat.eqb_spec id id') as [<-|_].
    + rewrite Hc. simpl. lia.
    + simpl. specialize (H4 id'). lia.
Qed.

(** The discipline does not depend on the other fields. *)
Ltac disc_frame :=
  let H := fresh in intros H; destruct H; constructor; wsimpl; assumption.

Lemma Disciplined_set_selectEntryView (x : Sev) (w : World) :
  Disciplined w -> Disciplined (set_selectEntryView x w).
Proof. disc_frame. Qed.

Lemma Disciplined_set_pendingEvent (x : option Evt) (w : World) :
  Disciplined w -> Disciplined (set_pendingEvent x w).
Proof. disc_frame. Qed.

Lemma Disciplined_set_running (x : bool) (w : World) :
  Disciplined w -> Disciplined (set_running x w).
Proof. disc_frame. Qed.

Lemma Disciplined_set_isAppFocused (x : bool) (w : World) :
  Disciplined w -> Disciplined (set_isAppFocused x w).
Proof. disc_frame. Qed.

Lemma Disciplined_set_hasOpenFiles (x : bool) (w : World) :
  Disciplined w -> Disciplined (set_hasOpenFiles x w).
Proof. disc_frame. Qed.

Lemma Disciplined_set_getEntries (x : Filter -> list Entry) (w : World) :
  Disciplined w -> Disciplined (set_getEntries x w).
Proof. disc_frame. Qed.

Lemma Disciplined_set_bus (x : list (BusEvent * Handler)) (w : World) :
  Disciplined w -> Disciplined (set_bus x w).
Proof. disc_frame. Qed.

Lemma Disciplined_set_updateSubs (x : list nat) (w : World) :
  Disciplined w -> Disciplined (set_updateSubs x w).
Proof. disc_frame. Qed.

Lemma Disciplined_set_views (x : gmap nat View) (w : World) :
  Disciplined w -> Disciplined (set_views x w).
Proof. disc_frame. Qed.

Lemma Disciplined_set_timers (x : gmap nat Timer) (w : World) :
  Disciplined w -> Disciplined (set_timers x w).
Proof. disc_frame. Qed.

Lemma Disciplined_set_now (x : nat) (w : World) :
  Disciplined w -> Disciplined (set_now x w).
Proof. disc_frame. Qed.

(** Peel the outermost field assignment or effect off the world in the
    goal. *)
Ltac disc_step :=
  lazymatch goal with
  | |- Disciplined (emit (CallCallback _ _ _) _) => apply Disciplined_call
  | |- Disciplined (emit _ _) => apply Disciplined_emit; [|reflexivity]
  | |- Disciplined (alertsError _ _) => unfold alertsError
  | |- Disciplined (set_nextId _ _) => apply Disciplined_nextId
  | |- Disciplined (set_pending _ _) => apply Disciplined_pending
  | |- Disciplined (set_selectEntryView _ _) => apply Disciplined_set_selectEntryView
  | |- Disciplined (set_pendingEvent _ _) => apply Disciplined_set_pendingEvent
  | |- Disciplined (set_running _ _) => apply Disciplined_set_running
  | |- Disciplined (set_isAppFocused _ _) => apply Disciplined_set_isAppFocused
  | |- Disciplined (set_hasOpenFiles _ _) => apply Disciplined_set_hasOpenFiles
  | |- Disciplined (set_getEntries _ _) => apply Disciplined_set_getEntries
  | |- Disciplined (set_bus _ _) => apply Disciplined_set_bus
  | |- Disciplined (set_updateSubs _ _) => apply Disciplined_set_updateSubs
  | |- Disciplined (set_views _ _) => apply Disciplined_set_views
  | |- Disciplined (set_timers _ _) => apply Disciplined_set_timers
  | |- Disciplined (set_now _ _) => apply Disciplined_set_now
  end.

(** Side conditions: arithmetic on identities, and traces that grew by
    effects other than calls. *)
Ltac disc_side :=
  wsimpl;
  rewrite <- ?app_assoc, ?callsOf_app; simpl;
  rewrite ?app_nil_r;
  try solve [assumption | reflexivity | lia
            | apply lookup_delete_eq
            | match goal with
              | H : Disciplined ?w |- callsOf ?id (trace ?w) = [] =>
                  apply (calls_allocated w H); lia
              | H : Disciplined ?w |- pending ?w !! ?id = None =>
                  apply (calls_allocated w H); lia
              end].

Lemma Disciplined_callCallback (id : nat) (cb : option Callback) (err : option Error)
    (w : World) :
  Disciplined w ->
  running w = false -> id < nextId w ->
  callsOf id (trace w) = [] -> pending w !! id = None ->
  Disciplined (callCallback id cb err w).
Proof.
  intros Hd Hr Hid Hc Hp. unfold callCallback.
  destruct cb as [[|n]|]; [destruct err|..]; repeat disc_step; assumption.
Qed.

Lemma Disciplined_run (e : Entry) (cb : option Callback) (w : World) :
  Disciplined w -> Disciplined (run e cb w).
Proof.
  intros Hd. unfold run. wsimpl.
  destruct (parse (cfg w) (getEffectiveAutoTypeSeq e)) as [ops|ex].
  - repeat disc_step; try assumption; disc_side.
    intros id Hs. destruct (decide (nextId w = id)) as [<-|Hne].
    + right. split; [lia|]. disc_side.
    + left. rewrite lookup_insert_ne in Hs by assumption. exact Hs.
  - apply Disciplined_callCallback; repeat disc_step; try assumption; disc_side.
Qed.

Ltac disc_insert ID :=
  let id' := fresh "id'" in
  let Hs := fresh "Hs" in
  intros id' Hs; wsimpl;
  destruct (decide (ID = id')) as [<-|?];
  [right; split; disc_side
  |left; rewrite lookup_insert_ne in Hs by assumption; exact Hs].

Ltac disc_auto := repeat disc_step; try assumption; disc_side.

Lemma Disciplined_validate (e : Entry) (sequence : jsstring) (cb : Callback) (w : World) :
  Disciplined w -> Disciplined (validate e sequence cb w).
Proof.
  intros Hd. unfold validate. wsimpl.
  destruct (parse (cfg w) sequence) as [ops|ex]; disc_auto.
  disc_insert (nextId w).
Qed.

Lemma Disciplined_invoke (k : Cont) (w : World) :
  Disciplined w -> Disciplined (invoke k w).
Proof.
  intros Hd. unfold invoke, runAndHandleResult.
  destruct k as [e|[r|]| |n]; try apply Disciplined_run; disc_auto.
Qed.

Lemma Disciplined_setTimeout (k : Cont) (delay : nat) (w : World) :
  Disciplined w -> Disciplined (setTimeout k delay w).
Proof. intros Hd. unfold setTimeout. wsimpl. disc_auto. Qed.

Lemma Disciplined_hideWindow (k : Cont) (w : World) :
  Disciplined w -> Disciplined (hideWindow k w).
Proof.
  intros Hd. unfold hideWindow. wsimpl.
  destruct (isAppFocused w);
    [apply Disciplined_setTimeout|apply Disciplined_invoke]; disc_auto.
Qed.

Lemma Disciplined_focusMainWindow (w : World) :
  Disciplined w -> Disciplined (focusMainWindow w).
Proof. intros Hd. apply Disciplined_setTimeout. exact Hd. Qed.

Lemma Disciplined_processEventWithFilter (evt : Evt) (w : World) :
  Disciplined w -> Disciplined (processEventWithFilter evt w).
Proof.
  intros Hd. unfold processEventWithFilter.
  assert (Hview : Disciplined
            (let w := focusMainWindow w in
             let '(vid, w) := fresh w in
             let w := emit (ViewRender vid) w in
             let w := set_views (<[vid := mkView (filter evt) false false]> (views w)) w in
             let w := set_selectEntryView (SevView vid) w in
             let w := emit (ViewOn vid) w in
             set_views (alter (fun v => mkView (vfilter v) true (removed v)) vid (views w)) w)).
  { pose proof (Disciplined_focusMainWindow w Hd) as Hf.
    cbn zeta. cbn [fresh]. disc_auto. }
  destruct (getEntries w (filter evt)) as [|e0 [|e1 rest]]; try exact Hview.
  apply Disciplined_hideWindow. exact Hd.
Qed.

Lemma Disciplined_resultListener (result : option Entry) (w : World) :
  Disciplined w -> Disciplined (resultListener result w).
Proof.
  intros Hd. unfold resultListener. wsimpl.
  destruct (selectEntryView w); try apply Disciplined_hideWindow; disc_auto.
Qed.

Lemma Disciplined_filesOff (w : World) : Disciplined w -> Disciplined (filesOff w).
Proof. intros Hd. unfold filesOff. disc_auto. Qed.

Lemma Disciplined_filesOnce (w : World) : Disciplined w -> Disciplined (filesOnce w).
Proof. intros Hd. unfold filesOnce. wsimpl. disc_auto. Qed.

Lemma Disciplined_resetPendingEvent (w : World) :
  Disciplined w -> Disciplined (resetPendingEvent w).
Proof.
  intros Hd. unfold resetPendingEvent.
  destruct (pendingEvent w); [|exact Hd].
  disc_step. apply Disciplined_filesOff. disc_auto.
Qed.

Lemma Disciplined_processPendingEvent (w : World) :
  Disciplined w -> Disciplined (processPendingEvent w).
Proof.
  intros Hd. unfold processPendingEvent.
  destruct (pendingEvent w); [|exact Hd].
  apply Disciplined_processEventWithFilter. disc_step.
  apply Disciplined_filesOff. disc_auto.
Qed.

Lemma Disciplined_windowTitleCallback (err : option Error) (title url : option jsstring)
    (w : World) :
  Disciplined w -> Disciplined (windowTitleCallback err title url w).
Proof.
  intros Hd. unfold windowTitleCallback.
  assert (Hlog : Disciplined
                   match err with
                   | Some e => emit (LogError "Error get window title" e) w
                   | None => emit (LogDebug "Window title") w
                   end) by (destruct err; disc_auto).
  cbn zeta.
  match goal with |- context [negb ?b] => destruct b end; cbn [negb].
  - apply Disciplined_processEventWithFilter. exact Hlog.
  - apply Disciplined_focusMainWindow. disc_step.
    apply Disciplined_filesOnce. disc_step. exact Hlog.
Qed.

Lemma Disciplined_selectEntryAndRun (w : World) :
  Disciplined w -> Disciplined (selectEntryAndRun w).
Proof.
  intros Hd. unfold selectEntryAndRun. wsimpl. disc_auto.
  disc_insert (nextId w).
Qed.

Lemma Disciplined_handleEvent (e : option TriggerArg) (w : World) :
  Disciplined w -> Disciplined (handleEvent e w).
Proof.
  intros Hd. unfold handleEvent. wsimpl.
  assert (Hlog : Disciplined (emit (LogDebug "Auto type event") w)) by disc_auto.
  destruct (running w); [disc_auto|].
  destruct (match e with Some a => entry a | None => None end).
  - apply Disciplined_hideWindow. exact Hlog.
  - destruct (truthy (selectEntryView w)); [exact Hlog|].
    destruct (isAppFocused w); [disc_auto|].
    apply Disciplined_selectEntryAndRun. exact Hlog.
Qed.

Lemma Disciplined_init (w : World) : Disciplined w -> Disciplined (init w).
Proof. intros Hd. unfold init. destruct (negb (enabled w)); disc_auto. Qed.

Lemma Disciplined_trigger (name : BusEvent) (e : option TriggerArg) (w : World) :
  Disciplined w -> Disciplined (trigger name e w).
Proof.
  unfold trigger. generalize (bus w) as handlers. intros handlers. revert w.
  induction handlers as [|[n h] handlers IH]; intros w Hd; [exact Hd|].
  simpl. apply IH. destruct (BusEvent_eqb n name); [|exact Hd].
  destruct h; [apply Disciplined_handleEvent|apply Disciplined_resetPendingEvent]; exact Hd.
Qed.

Lemma Disciplined_triggerUpdate (w : World) :
  Disciplined w -> Disciplined (triggerUpdate w).
Proof.
  unfold triggerUpdate. generalize (updateSubs w) as subs. intros subs. revert w.
  induction subs as [|sid subs IH]; intros w Hd; [exact Hd|].
  simpl. apply IH. apply Disciplined_processPendingEvent. disc_auto.
Qed.

Lemma Disciplined_fireTimer (tid : nat) (w : World) :
  Disciplined w -> Disciplined (fireTimer tid w).
Proof.
  intros Hd. unfold fireTimer.
  destruct (timers w !! tid) as [t|]; [|exact Hd].
  destruct (Nat.leb (due t) (now w)); [|exact Hd].
  apply Disciplined_invoke. disc_auto.
Qed.

Lemma Disciplined_resolveCallback (id : nat) (e : Entry) (cb : option Callback)
    (err : option Error) (ops : list Op) (w : World) :
  Disciplined w -> id < nextId w ->
  callsOf id (trace w) = [] -> pending w !! id = None ->
  Disciplined (resolveCallback id e cb err ops w).
Proof.
  intros Hd Hid Hc Hp. unfold resolveCallback.
  destruct err as [er|]; cbn zeta.
  - apply Disciplined_callCallback; disc_auto.
  - destruct (autoTypeObfuscation e);
      [destruct (obfuscate _ ops) as [ops'|ex]|];
      try (apply Disciplined_callCallback; disc_auto);
      disc_auto; disc_insert id.
Qed.

Lemma Disciplined_runnerRunCallback (id : nat) (cb : option Callback)
    (err : option Error) (w : World) :
  Disciplined w -> id < nextId w ->
  callsOf id (trace w) = [] -> pending w !! id = None ->
  Disciplined (runnerRunCallback id cb err w).
Proof.
  intros Hd Hid Hc Hp. unfold runnerRunCallback.
  destruct err as [er|]; cbn zeta; apply Disciplined_callCallback; disc_auto.
Qed.

(** Removing a waiting call keeps the discipline, and the identity it had
    is an allocated one without recorded calls. *)
Lemma Disciplined_delete (id : nat) (p : Pending) (w : World) :
  Disciplined w -> pending w !! id = Some p ->
  let w' := set_pending (delete id (pending w)) w in
  Disciplined w' /\ id < nextId w' /\ callsOf id (trace w') = [] /\ pending w' !! id = None.
Proof.
  intros Hd Hp w'. subst w'. wsimpl. split; [|split; [|split]].
  - apply Disciplined_pending; [exact Hd|].
    intros id' Hs. left. apply lookup_delete_is_Some in Hs. tauto.
  - destruct (Nat.lt_ge_cases id (nextId w)) as [Hlt|Hge]; [exact Hlt|].
    apply (calls_allocated w Hd) in Hge. destruct Hge as [_ Hnone]. congruence.
  - apply (calls_not_pending w Hd). rewrite Hp. eauto.
  - apply lookup_delete_eq.
Qed.

Lemma Disciplined_deliver (ev : Event) (w : World) :
  Disciplined w -> Disciplined (deliver ev w).
Proof.
  intros Hd. destruct ev; simpl.
  - apply Disciplined_init; exact Hd.
  - apply Disciplined_run; exact Hd.
  - apply Disciplined_validate; exact Hd.
  - apply Disciplined_trigger; exact Hd.
  - apply Disciplined_triggerUpdate; exact Hd.
  - destruct (pending w !! id) as [[| | |]|] eqn:Hp; try exact Hd.
    apply Disciplined_windowTitleCallback.
    apply (Disciplined_delete id _ w Hd Hp).
  - destruct (pending w !! id) as [[| e0 cb | e0 cb | e0 cb]|] eqn:Hp; try exact Hd.
    + destruct (Disciplined_delete id _ w Hd Hp) as (H1 & H2 & H3 & H4).
      apply Disciplined_resolveCallback; assumption.
    + apply Disciplined_emit; [|reflexivity].
      apply (Disciplined_delete id _ w Hd Hp).
  - destruct (pending w !! id) as [[| e0 cb | e0 cb | e0 cb]|] eqn:Hp; try exact Hd.
    destruct (Disciplined_delete id _ w Hd Hp) as (H1 & H2 & H3 & H4).
    apply Disciplined_runnerRunCallback; assumption.
  - destruct (views w !! vid) as [v|]; [|exact Hd].
    destruct (listening v); [|exact Hd].
    apply Disciplined_resultListener; exact Hd.
  - apply Disciplined_fireTimer; exact Hd.
  - disc_auto.
  - disc_auto.
  - disc_auto.
Qed.

Lemma Disciplined_deliverAll (evs : list Event) (w : World) :
  Disciplined w -> Disciplined (deliverAll evs w).
Proof.
  unfold deliverAll. revert w.
  induction evs as [|ev evs IH]; intros w Hd; [exact Hd|].
  simpl. apply IH. apply Disciplined_deliver. exact Hd.
Qed.

Lemma Disciplined_initial (c : Config) (launcher : bool) :
  Disciplined (initial c launcher).
Proof.
  constructor; simpl.
  - intros s [].
  - intros id _. split; [reflexivity|apply lookup_empty].
  - intros id _. reflexivity.
  - intros id. lia.
Qed.

(** A sequence the parser rejects: the run is over when [run] returns,
    and the alert of [runAndHandleResult] is raised. *)
Example parse_failure_demo :
  let w := deliver (Sample.direct Sample.broken) Sample.idle in
  running w = false /\ inFlight w = []
  /\ effects w = [LogDebug "Auto type event"; LogDebug "Hide window";
                  Invoke (KRunAndHandleResult Sample.broken);
                  LogDebug "Start"; Parse 0 (js "{");
                  LogError "Parse error" "Bad sequence";
                  CallCallback 0 CbAlert (Some "Bad sequence");
                  AlertsError (AlertGeneric "Bad sequence")].
Proof. vm_compute. repeat split. Qed.

(** C2.  [run(entry, callback)], called in any state the engine can reach.
    [running] is set before the first effect of the run.  When the parser
    throws, when the resolver reports an error, when [obfuscate] throws, and
    when the executor reports an error or success, [running] is false at the
    moment the callback is called, the callback receives that stage's error
    (none on success), and the run is over.  Whatever happens afterwards,
    the callback of this run is never called a second time, never with
    [running] set, and never while a stage of the run is still waiting. *)
Theorem run_resets_running_then_calls_back_once
    (c : Config) (launcher : bool) (before : list Event) (e : Entry) (cb : Callback) :
  let w := deliverAll before (initial c launcher) in
  let id := nextId w in
  let w1 := run e (Some cb) w in
  (exists rest, trace w1 = trace w ++ mkStamped (LogDebug "Start") true :: rest)
  /\ match parse (cfg w) (getEffectiveAutoTypeSeq e) with
     | Thrown ex =>
         running w1 = false /\ pending w1 !! id = None
         /\ callsOf id (trace w1) = [mkStamped (CallCallback id cb (Some ex)) false]
     | Returned _ =>
         running w1 = true /\ pending w1 !! id = Some (PResolve e (Some cb))
         /\ callsOf id (trace w1) = []
     end
  /\ (forall after err ops,
        let w2 := deliverAll after w1 in
        pending w2 !! id = Some (PResolve e (Some cb)) ->
        let w3 := deliver (EvResolved id err ops) w2 in
        match resolveStageError (cfg w2) e err ops with
        | Some er =>
            running w3 = false /\ pending w3 !! id = None
            /\ callsOf id (trace w3) = [mkStamped (CallCallback id cb (Some er)) false]
        | None =>
            pending w3 !! id = Some (PExecute e (Some cb))
            /\ callsOf id (trace w3) = []
        end)
  /\ (forall after err,
        let w3 := deliverAll after w1 in
        pending w3 !! id = Some (PExecute e (Some cb)) ->
        let w4 := deliver (EvExecuted id err) w3 in
        running w4 = false /\ pending w4 !! id = None
        /\ callsOf id (trace w4) = [mkStamped (CallCallback id cb err) false])
  /\ (forall after,
        let w' := deliverAll after w1 in
        List.length (callsOf id (trace w')) <= 1
        /\ (forall s, In s (callsOf id (trace w')) -> atRunning s = false)
        /\ (is_Some (pending w' !! id) -> callsOf id (trace w') = [])).
Proof.
  intros w id w1.
  assert (Hd : Disciplined w) by apply Disciplined_deliverAll, Disciplined_initial.
  assert (Hd1 : Disciplined w1) by apply Disciplined_run, Hd.
  destruct (calls_allocated w Hd id (Nat.le_refl _)) as [Hc Hp].
  destruct (run_stage e cb w) as [Hstart Hparse]. fold id w1 in Hstart, Hparse.
  split; [exact Hstart|]. split; [|split; [|split]].
  - destruct (parse (cfg w) (getEffectiveAutoTypeSeq e)) as [ops|ex];
      destruct Hparse as (Hr & Hq & Ht); rewrite Hq, Ht, Hc.
    + split; [exact Hr|]. split; [apply lookup_insert_eq|reflexivity].
    + split; [exact Hr|]. split; [exact Hp|reflexivity].
  - intros after err ops w2 Hp2 w3.
    assert (Hd2 : Disciplined w2) by apply Disciplined_deliverAll, Hd1.
    assert (Hc2 : callsOf id (trace w2) = [])
      by (apply (calls_not_pending w2 Hd2); rewrite Hp2; eauto).
    pose proof (resolve_stage id e cb err ops w2 Hp2) as Hs. fold w3 in Hs.
    destruct (resolveStageError (cfg w2) e err ops) as [er|].
    + destruct Hs as (Hr & Hq & Ht). rewrite Hq, Ht, Hc2.
      split; [exact Hr|]. split; [apply lookup_delete_eq|reflexivity].
    + destruct Hs as (_ & Hq & Ht). rewrite Hq, Ht.
      split; [apply lookup_insert_eq|exact Hc2].
  - intros after err w3 Hp3 w4.
    assert (Hd3 : Disciplined w3) by apply Disciplined_deliverAll, Hd1.
    assert (Hc3 : callsOf id (trace w3) = [])
      by (apply (calls_not_pending w3 Hd3); rewrite Hp3; eauto).
    destruct (execute_stage id e cb err w3 Hp3) as (Hr & Hq & Ht). fold w4 in Hr, Hq, Ht.
    rewrite Hq, Ht, Hc3.
    split; [exact Hr|]. split; [apply lookup_delete_eq|reflexivity].
  - intros after w'.
    assert (Hd' : Disciplined w') by apply Disciplined_deliverAll, Hd1.
    split; [apply (calls_once w' Hd')|]. split; [|apply (calls_not_pending w' Hd')].
    intros s Hs. unfold callsOf in Hs. apply List.filter_In in Hs. destruct Hs as [Hin Hcall].
    apply (calls_reset w' Hd' s Hin). apply (isCallOf_isCall id). exact Hcall.
Qed.

(** A run of [Sample.alice] from the idle engine: resolved, then executed
    without error; its callback has been called one time, without error,
    with [running] reset. *)
Lemma run_resets_running_then_calls_back_once_witness :
  let w3 := deliverAll [EvResolved 0 None [OpText None (js "alice")]]
              (run Sample.alice (Some (CbExternal 5))
                 (deliverAll [EvInit] (initial Sample.config true))) in
  pending w3 !! 0 = Some (PExecute Sample.alice (Some (CbExternal 5)))
  /\ callsOf 0 (trace (deliver (EvExecuted 0 None) w3))
     = [mkStamped (CallCallback 0 (CbExternal 5) None) false].
Proof.
  intros w3.
  assert (Hp : pending w3 !! 0 = Some (PExecute Sample.alice (Some (CbExternal 5))))
    by (vm_compute; reflexivity).
  split; [exact Hp|].
  apply (run_resets_running_then_calls_back_once Sample.config true [EvInit]
           Sample.alice (CbExternal 5)).
  exact Hp.
Defined.

(** ** Dispatch on the candidates *)

(** What [processEventWithFilter] does when the filter does not return
    exactly one entry: it asks for the main window and opens the picker. *)
Lemma processEventWithFilter_opens_picker (evt : Evt) (w : World) :
  List.length (getEntries w (filter evt)) <> 1 ->
  let w' := processEventWithFilter evt w in
  let vid := S (nextId w) in
  sameRuns w w'
  /\ invocations (trace w') = invocations (trace w)
  /\ selectEntryView w' = SevView vid
  /\ views w' = <[vid := mkView (filter evt) true false]> (views w)
  /\ timers w' = <[nextId w := mkTimer (now w + RedrawInactiveWindow (cfg w))
                                       KShowMainWindow]> (timers w)
  /\ effects w' = effects w ++ [SetTimeout (nextId w) KShowMainWindow
                                  (RedrawInactiveWindow (cfg w));
                                ViewRender vid; ViewOn vid].
Proof.
  intros Hlen w' vid. subst w' vid. unfold processEventWithFilter.
  assert (Hpick : forall l : list Entry,
            match l with [e0] => False | _ => True end ->
            match l with
            | [e0] => hideWindow (KRunAndHandleResult e0) w
            | _ =>
              let w := focusMainWindow w in
              let '(vid, w) := fresh w in
              let w := emit (ViewRender vid) w in
              let w := set_views (<[vid := mkView (filter evt) false false]> (views w)) w in
              let w := set_selectEntryView (SevView vid) w in
              let w := emit (ViewOn vid) w in
              set_views (alter (fun v => mkView (vfilter v) true (removed v)) vid (views w)) w
            end
            = (let w := focusMainWindow w in
              let '(vid, w) := fresh w in
              let w := emit (ViewRender vid) w in
              let w := set_views (<[vid := mkView (filter evt) false false]> (views w)) w in
              let w := set_selectEntryView (SevView vid) w in
              let w := emit (ViewOn vid) w in
              set_views (alter (fun v => mkView (vfilter v) true (removed v)) vid (views w)) w)).
  { intros [|e0 [|e1 l]] H; [reflexivity|destruct H|reflexivity]. }
  rewrite Hpick by (destruct (getEntries w (filter evt)) as [|e0 [|e1 l]];
                    simpl in *; [exact I|congruence|exact I]).
  unfold focusMainWindow, setTimeout, sameRuns, effects. wsimpl.
  repeat split.
  - rewrite !invocations_app. simpl. rewrite !app_nil_r. reflexivity.
  - rewrite alter_insert_eq. reflexivity.
  - rewrite !map_app, <- !app_assoc. reflexivity.
Qed.

(** C3, as the code has it.  With no candidate no run starts, but the
    picker is opened all the same: the main window is asked for, a new
    select view built from the filter becomes [selectEntryView] and gets
    its result listener. *)
Theorem zero_candidates_open_the_picker (evt : Evt) (w : World)
    (Hzero : getEntries w (filter evt) = []) :
  let w' := processEventWithFilter evt w in
  let vid := S (nextId w) in
  sameRuns w w'
  /\ invocations (trace w') = invocations (trace w)
  /\ selectEntryView w' = SevView vid
  /\ views w' = <[vid := mkView (filter evt) true false]> (views w)
  /\ timers w' = <[nextId w := mkTimer (now w + RedrawInactiveWindow (cfg w))
                                       KShowMainWindow]> (timers w)
  /\ effects w' = effects w ++ [SetTimeout (nextId w) KShowMainWindow
                                  (RedrawInactiveWindow (cfg w));
                                ViewRender vid; ViewOn vid].
Proof.
  apply processEventWithFilter_opens_picker. rewrite Hzero. simpl. congruence.
Qed.

Lemma zero_candidates_open_the_picker_witness :
  selectEntryView
    (processEventWithFilter (mkEvt Sample.window)
       (deliverAll Sample.noMatch Sample.idle)) = SevView 2.
Proof.
  apply (zero_candidates_open_the_picker (mkEvt Sample.window)
           (deliverAll Sample.noMatch Sample.idle)).
  reflexivity.
Defined.

(** C3, as stated, fails: an entry-less trigger, a window title, a filter
    without any match, and the engine has created a picker. *)
Lemma zero_candidates_picker_is_created :
  let w0 := deliverAll Sample.noMatch Sample.idle in
  let w := deliver Sample.noMatchTitle w0 in
  getEntries w0 Sample.window = []
  /\ selectEntryView w0 = SevFalse
  /\ selectEntryView w = SevView 2
  /\ views w !! 2 = Some (mkView Sample.window true false)
  /\ ~ (selectEntryView w = selectEntryView w0 /\ views w = views w0).
Proof.
  vm_compute. repeat split. intros [H _]. discriminate H.
Qed.

Lemma hideWindow_keeps_picker (k : Cont) (w : World) :
  views (hideWindow k w) = views w
  /\ selectEntryView (hideWindow k w) = selectEntryView w.
Proof.
  unfold hideWindow, setTimeout, invoke, runAndHandleResult. wsimpl.
  destruct (isAppFocused w); wsimpl; [split; reflexivity|].
  destruct k as [e|[r|]| |n]; wsimpl;
    try (destruct (run_keeps_picker e (Some CbAlert)
                     (emit (Invoke (KRunAndHandleResult e)) (emit (LogDebug "Hide window") w)))
           as [Hv Hs]; rewrite Hv, Hs);
    try (destruct (run_keeps_picker r (Some CbAlert)
                     (emit (Invoke (KRunIfResult (Some r))) (emit (LogDebug "Hide window") w)))
           as [Hv Hs]; rewrite Hv, Hs);
    split; reflexivity.
Qed.

(** The closures do what their source text says. *)
Lemma invoke_spec (k : Cont) (w : World) :
  invoke k w =
  match k with
  | KRunAndHandleResult e => run e (Some CbAlert) (emit (Invoke k) w)
  | KRunIfResult (Some r) => run r (Some CbAlert) (emit (Invoke k) w)
  | KRunIfResult None => emit (Invoke k) w
  | KShowMainWindow => emit ShowMainWindow (emit (Invoke k) w)
  | KExternal _ => emit (Invoke k) w
  end.
Proof. destruct k as [e|[r|]| |n]; reflexivity. Qed.

(** [hideWindow k]: [k] is called now, or a timer holds it and nothing else
    has happened. *)
Lemma hideWindow_spec (k : Cont) (w : World) :
  let w' := hideWindow k w in
  if isAppFocused w
  then timers w' = <[nextId w := mkTimer (now w + AutoTypeAfterHide (cfg w)) k]> (timers w)
       /\ sameRuns w w'
       /\ invocations (trace w') = invocations (trace w)
  else w' = invoke k (emit (LogDebug "Hide window") w).
Proof.
  intros w'. subst w'. unfold hideWindow, setTimeout, sameRuns. wsimpl.
  destruct (isAppFocused w); wsimpl; [|reflexivity].
  repeat split. rewrite !invocations_app. simpl. rewrite !app_nil_r. reflexivity.
Qed.

(** A due timer calls its closure and is removed. *)
Lemma fireTimer_due (tid : nat) (t : Timer) (w : World) :
  timers w !! tid = Some t -> due t <= now w ->
  deliver (EvTimer tid) w = invoke (tcont t) (set_timers (delete tid (timers w)) w).
Proof.
  intros Ht Hd. simpl. unfold fireTimer. rewrite Ht.
  apply Nat.leb_le in Hd. rewrite Hd. reflexivity.
Qed.

(** The world in which the result listener has closed the picker [vid]. *)
Lemma resultListener_closes (result : option Entry) (vid : nat) (v : View) (w : World) :
  selectEntryView w = SevView vid -> views w !! vid = Some v ->
  let w' := resultListener result w in
  selectEntryView w' = SevNull
  /\ views w' = <[vid := mkView (vfilter v) false true]> (views w)
  /\ exists closed,
       w' = hideWindow (KRunIfResult result) closed
       /\ sameRuns w closed /\ isAppFocused closed = isAppFocused w
       /\ timers closed = timers w /\ nextId closed = nextId w /\ now closed = now w
       /\ cfg closed = cfg w
       /\ effects closed = effects w ++ [LogDebug "Entry selected"; ViewOff vid; ViewRemove vid].
Proof.
  intros Hs Hv w'. subst w'. unfold resultListener. wsimpl. rewrite Hs.
  match goal with
  | |- context [hideWindow ?k ?c] =>
      destruct (hideWindow_keeps_picker k c) as [Hviews Hsev]; rewrite Hviews, Hsev
  end.
  wsimpl. split; [reflexivity|]. split.
  - apply map_eq. intros i. destruct (decide (i = vid)) as [->|Hne].
    + rewrite lookup_insert_eq, !lookup_alter_eq, Hv. reflexivity.
    + rewrite lookup_insert_ne, !lookup_alter_ne by congruence. reflexivity.
  - eexists. split; [reflexivity|]. unfold sameRuns, effects. wsimpl.
    repeat split. rewrite !map_app, <- !app_assoc. reflexivity.
Qed.

(** [hideWindow] with the host not focused calls the closure at once. *)
Lemma hideWindow_unfocused (k : Cont) (pre : list Effect) (w w0 : World) :
  isAppFocused w0 = false ->
  effects w0 = effects w ++ pre -> nextId w0 = nextId w -> cfg w0 = cfg w ->
  pending w0 = pending w -> running w0 = running w ->
  Called k (pre ++ [LogDebug "Hide window"]) w (hideWindow k w0)
  /\ timers (hideWindow k w0) = timers w0.
Proof.
  intros Hf Heff Hid Hcfg Hpend Hrun. unfold hideWindow. wsimpl. rewrite Hf. split.
  - apply invoke_called; wsimpl; try assumption.
    unfold effects in *. wsimpl. rewrite map_app, Heff, <- app_assoc. reflexivity.
  - rewrite invoke_timers. reflexivity.
Qed.

(** [hideWindow] with the host focused hides it and sets the timer. *)
Lemma hideWindow_focused (k : Cont) (w : World) :
  isAppFocused w = true ->
  let w' := hideWindow k w in
  effects w' = effects w ++ [LogDebug "Hide window"; HideApp;
                             SetTimeout (nextId w) k (AutoTypeAfterHide (cfg w))]
  /\ timers w' = <[nextId w := mkTimer (now w + AutoTypeAfterHide (cfg w)) k]> (timers w)
  /\ sameRuns w w'.
Proof.
  intros Hf w'. subst w'. unfold hideWindow, setTimeout, sameRuns, effects. wsimpl.
  rewrite Hf. wsimpl. rewrite !map_app, <- !app_assoc. repeat split.
Qed.

(** C4.  The claim fails on the code when two pickers are open.  Two
    entry-less triggers arrive before the first window title query has
    answered, so each answer opens a picker: view 3 and view 5, and
    [selectEntryView] is view 5.  The user chooses an entry in view 3.  The listener tears down view 5, the picker that did not
    fire; view 3, the picker that fired, keeps its listener and is not
    removed.  When an entry is then chosen in view 3, which is still open,
    the listener finds [selectEntryView] null: a [TypeError] is raised and
    no run is started for the chosen entry, neither at once nor through a
    timer. *)
Theorem result_of_older_picker_closes_the_newer :
  let w := deliverAll Sample.twoPickers Sample.idle in
  let w1 := deliver (EvViewResult 3 (Some Sample.alice)) w in
  let w2 := deliver (EvViewResult 3 (Some Sample.bob)) w1 in
  (views w !! 3 = Some (mkView Sample.window true false)
   /\ views w !! 5 = Some (mkView Sample.otherWindow true false)
   /\ selectEntryView w = SevView 5)
  /\ (effects w1 = effects w ++ [LogDebug "Entry selected"; ViewOff 5; ViewRemove 5;
                                 LogDebug "Hide window"; HideApp;
                                 SetTimeout 6 (KRunIfResult (Some Sample.alice)) 100]
      /\ views w1 !! 3 = Some (mkView Sample.window true false)
      /\ views w1 !! 5 = Some (mkView Sample.otherWindow false true)
      /\ selectEntryView w1 = SevNull)
  /\ (effects w2 = effects w1 ++ [LogDebug "Entry selected"; TypeError]
      /\ views w2 !! 3 = Some (mkView Sample.window true false)
      /\ timers w2 = timers w1 /\ pending w2 = pending w1 /\ running w2 = false
      /\ inFlight w2 = []).
Proof. vm_compute. repeat split. Qed.

(** X16.  Dispatch of [processEventWithFilter], and the result of the
    picker that [selectEntryView] refers to.  One candidate: no picker,
    [hideWindow] gets the closure that runs this entry, so its run starts
    at once when the host is not focused and is held by the hide timer
    otherwise.  Several candidates: no run, a picker is opened.  When the
    picker that [selectEntryView] refers to fires its result, its listener
    is detached, the view removed and [selectEntryView] set to [null], so
    that a further result from this view is ignored; the closure for the
    result goes through [hideWindow].  Called, at once or by its timer, the
    closure starts the run of a chosen entry, and for an empty result does
    nothing and leaves [running] as it was. *)
Theorem processEventWithFilter_dispatch (evt : Evt) (w : World) :
  let w' := processEventWithFilter evt w in
  (forall e0, getEntries w (filter evt) = [e0] ->
     let k := KRunAndHandleResult e0 in
     views w' = views w /\ selectEntryView w' = selectEntryView w
     /\ if isAppFocused w
        then effects w' = effects w ++ [LogDebug "Hide window"; HideApp;
                                        SetTimeout (nextId w) k (AutoTypeAfterHide (cfg w))]
             /\ timers w' = <[nextId w := mkTimer (now w + AutoTypeAfterHide (cfg w)) k]>
                              (timers w)
             /\ sameRuns w w'
        else Started e0 [LogDebug "Hide window"; Invoke k] w w'
             /\ timers w' = timers w)
  /\ (1 < List.length (getEntries w (filter evt)) ->
      sameRuns w w'
      /\ selectEntryView w' = SevView (S (nextId w))
      /\ views w' = <[S (nextId w) := mkView (filter evt) true false]> (views w))
  /\ (forall w2 vid v result,
        selectEntryView w2 = SevView vid ->
        views w2 !! vid = Some v -> listening v = true ->
        let w3 := deliver (EvViewResult vid result) w2 in
        let k := KRunIfResult result in
        let closing := [LogDebug "Entry selected"; ViewOff vid; ViewRemove vid] in
        selectEntryView w3 = SevNull
        /\ views w3 = <[vid := mkView (vfilter v) false true]> (views w2)
        /\ (forall again, deliver (EvViewResult vid again) w3 = w3)
        /\ if isAppFocused w2
           then effects w3 = effects w2 ++ closing
                             ++ [LogDebug "Hide window"; HideApp;
                                 SetTimeout (nextId w2) k (AutoTypeAfterHide (cfg w2))]
                /\ timers w3 = <[nextId w2 := mkTimer (now w2 + AutoTypeAfterHide (cfg w2)) k]>
                                 (timers w2)
                /\ sameRuns w2 w3
           else Called k (closing ++ [LogDebug "Hide window"]) w2 w3
                /\ timers w3 = timers w2)
  /\ (forall w4 tid t,
        timers w4 !! tid = Some t -> due t <= now w4 ->
        let w5 := deliver (EvTimer tid) w4 in
        Called (tcont t) [] w4 w5 /\ timers w5 = delete tid (timers w4)).
Proof.
  intros w'. subst w'. split; [|split; [|split]].
  - intros e0 He k. subst k. unfold processEventWithFilter. rewrite He.
    destruct (hideWindow_keeps_picker (KRunAndHandleResult e0) w) as [Hv Hs].
    split; [exact Hv|]. split; [exact Hs|].
    destruct (isAppFocused w) eqn:Hf.
    + apply hideWindow_focused. exact Hf.
    + apply (hideWindow_unfocused (KRunAndHandleResult e0) [] w w); try reflexivity;
        [exact Hf|rewrite app_nil_r; reflexivity].
  - intros Hlen.
    destruct (processEventWithFilter_opens_picker evt w) as (H1 & _ & H3 & H4 & _);
      [lia|]. split; [exact H1|]. split; [exact H3|exact H4].
  - intros w2 vid v result Hs Hv Hl w3 k closing. subst w3 k closing.
    simpl deliver. rewrite Hv, Hl.
    destruct (resultListener_closes result vid v w2 Hs Hv)
      as (Hnull & Hviews & closed & Hw3 & Hsame & Hfoc & Htim & Hnext & Hnow & Hcfg & Heff).
    split; [exact Hnull|]. split; [exact Hviews|]. split.
    + intros again. rewrite Hviews, lookup_insert_eq. reflexivity.
    + rewrite Hw3. destruct Hsame as [Hp Hr].
      destruct (isAppFocused w2) eqn:Hf.
      * destruct (hideWindow_focused (KRunIfResult result) closed Hfoc)
          as (He & Ht & [Hp' Hr']).
        rewrite Hnext, Hnow, Hcfg, Htim in *.
        split; [rewrite He, Heff, <- app_assoc; reflexivity|].
        split; [exact Ht|]. split; congruence.
      * destruct (hideWindow_unfocused (KRunIfResult result)
                    [LogDebug "Entry selected"; ViewOff vid; ViewRemove vid] w2 closed)
          as [Hc Ht]; try assumption.
        split; [exact Hc|congruence].
  - intros w4 tid t Ht Hd w5. subst w5. rewrite (fireTimer_due tid t w4 Ht Hd).
    split; [|rewrite invoke_timers; reflexivity].
    apply invoke_called; wsimpl; try reflexivity.
    unfold effects. wsimpl. rewrite app_nil_r. reflexivity.
Qed.

(** Two candidates, the picker opens, the user picks the second one while
    the host is not focused: the picker is closed and a run is waiting for
    the resolver. *)
Lemma processEventWithFilter_dispatch_witness :
  let w := set_getEntries (fun _ => [Sample.alice; Sample.bob]) Sample.idle in
  let w2 := processEventWithFilter (mkEvt Sample.window) w in
  let w3 := deliver (EvViewResult 1 (Some Sample.bob)) w2 in
  selectEntryView w2 = SevView 1
  /\ selectEntryView w3 = SevNull
  /\ running w3 = true
  /\ pending w3 !! 2 = Some (PResolve Sample.bob (Some CbAlert)).
Proof.
  intros w w2 w3.
  assert (Hf : isAppFocused w2 = false) by (vm_compute; reflexivity).
  assert (Hid : nextId w2 = 2) by (vm_compute; reflexivity).
  assert (Hparse : parse (cfg w2) (getEffectiveAutoTypeSeq Sample.bob)
                   = Returned [OpText None (getEffectiveAutoTypeSeq Sample.bob)])
    by (vm_compute; reflexivity).
  pose proof (processEventWithFilter_dispatch (mkEvt Sample.window) w) as (_ & H2 & H3 & _).
  fold w2 in H2.
  destruct H2 as (_ & Hsev & Hviews); [vm_compute; lia|].
  split; [exact Hsev|].
  destruct (H3 w2 1 (mkView Sample.window true false) (Some Sample.bob) Hsev)
    as (Hnull & _ & _ & Hb);
    [rewrite Hviews; apply lookup_insert_eq|reflexivity|].
  fold w3 in Hnull, Hb. split; [exact Hnull|].
  rewrite Hf in Hb. destruct Hb as [Hcalled _].
  destruct (Started_parsed _ _ _ _ _ Hparse Hcalled) as [Hr Hp].
  rewrite Hid in Hp. split; [exact Hr|exact Hp].
Defined.

(** ** Deferred triggers *)

Lemma set_updateSubs_same (w : World) : set_updateSubs (updateSubs w) w = w.
Proof. destruct w; reflexivity. Qed.

Lemma run_frame_deferred (e : Entry) (cb : option Callback) (w : World) :
  let w' := run e cb w in
  pendingEvent w' = pendingEvent w /\ updateSubs w' = updateSubs w
  /\ List.filter isQuery (effects w') = List.filter isQuery (effects w).
Proof.
  intros w'. subst w'. unfold run, callCallback, effects. wsimpl.
  cases; rewrite ?map_app, ?List.filter_app; simpl; rewrite ?app_nil_r; repeat split.
Qed.

Lemma hideWindow_frame_deferred (k : Cont) (w : World) :
  let w' := hideWindow k w in
  pendingEvent w' = pendingEvent w /\ updateSubs w' = updateSubs w
  /\ List.filter isQuery (effects w') = List.filter isQuery (effects w).
Proof.
  intros w'. subst w'. unfold hideWindow, setTimeout. wsimpl.
  destruct (isAppFocused w); wsimpl.
  - unfold effects. wsimpl.
    rewrite ?map_app, ?List.filter_app; simpl; rewrite ?app_nil_r; repeat split.
  - rewrite invoke_spec.
    destruct k as [e|[r|]| |n];
      try match goal with
          | |- context [run ?e ?cb ?w0] =>
              destruct (run_frame_deferred e cb w0) as (H1 & H2 & H3);
              rewrite H1, H2, H3
          end;
      unfold effects; wsimpl;
      rewrite ?map_app, ?List.filter_app; simpl; rewrite ?app_nil_r; repeat split.
Qed.

Lemma processEventWithFilter_frame_deferred (evt : Evt) (w : World) :
  let w' := processEventWithFilter evt w in
  pendingEvent w' = pendingEvent w /\ updateSubs w' = updateSubs w
  /\ List.filter isQuery (effects w') = List.filter isQuery (effects w).
Proof.
  intros w'. subst w'.
  destruct (Nat.eq_dec (List.length (getEntries w (filter evt))) 1) as [Hone|Hne].
  - unfold processEventWithFilter.
    destruct (getEntries w (filter evt)) as [|e0 [|e1 l]]; try discriminate Hone.
    apply hideWindow_frame_deferred.
  - destruct (processEventWithFilter_opens_picker evt w Hne) as (_ & _ & _ & _ & _ & He).
    rewrite He, List.filter_app. simpl. rewrite app_nil_r.
    split; [|split; [|reflexivity]].
    + unfold processEventWithFilter, focusMainWindow, setTimeout.
      destruct (getEntries w (filter evt)) as [|e0 [|e1 l]]; simpl in Hne;
        try congruence; reflexivity.
    + unfold processEventWithFilter, focusMainWindow, setTimeout.
      destruct (getEntries w (filter evt)) as [|e0 [|e1 l]]; simpl in Hne;
        try congruence; reflexivity.
Qed.

(** Without a pending trigger an ['update'] only uses up the [once]
    listeners. *)
Lemma update_without_pending (subs : list nat) (w : World) :
  pendingEvent w = None ->
  exists rest,
    fold_left (fun w sid =>
                 processPendingEvent
                   (set_updateSubs (List.filter (fun s => negb (Nat.eqb s sid)) (updateSubs w)) w))
              subs w
    = set_updateSubs rest w
    /\ (updateSubs w = [] -> rest = []).
Proof.
  revert w. induction subs as [|sid subs IH]; intros w Hp.
  - exists (updateSubs w). simpl. split; [symmetry; apply set_updateSubs_same|auto].
  - simpl. unfold processPendingEvent at 2. wsimpl. rewrite Hp.
    destruct (IH (set_updateSubs (List.filter (fun s => negb (Nat.eqb s sid)) (updateSubs w)) w) Hp)
      as (rest & Heq & Hnil).
    exists rest. rewrite Heq. split; [destruct w; reflexivity|].
    intros Hs. apply Hnil. wsimpl. rewrite Hs. reflexivity.
Qed.

(** C5.  A trigger that arrives while no file is open is kept in
    [pendingEvent] with the filter built from the window context of that
    moment, and one [once] listener is added.  When ['update'] fires with a
    trigger pending, [processPendingEvent] first removes the listeners and
    clears [pendingEvent], then hands the stored event to
    [processEventWithFilter]; no window title is queried again.  After that
    nothing is pending and nobody listens, so a further ['update'] does
    nothing. *)
Theorem deferred_trigger_replayed_once (evt : Evt) (w : World)
    (Hpending : pendingEvent w = Some evt)
    (Hsubscribed : updateSubs w <> []) :
  let cleared := set_pendingEvent None
                   (filesOff (emit (LogDebug "processing pending auto-type event") w)) in
  let w' := deliver EvFilesUpdate w in
  pendingEvent cleared = None /\ updateSubs cleared = []
  /\ w' = processEventWithFilter evt cleared
  /\ List.filter isQuery (effects w') = List.filter isQuery (effects w)
  /\ pendingEvent w' = None /\ updateSubs w' = []
  /\ deliver EvFilesUpdate w' = w'
  /\ forall w0 err title url,
       hasOpenFiles w0 = false ->
       let w1 := windowTitleCallback err title url w0 in
       pendingEvent w1 = Some (mkEvt (mkFilter title url))
       /\ updateSubs w1 = updateSubs w0 ++ [nextId w0]
       /\ sameRuns w0 w1 /\ views w1 = views w0
       /\ selectEntryView w1 = selectEntryView w0.
Proof.
  intros cleared w'.
  destruct (processEventWithFilter_frame_deferred evt cleared) as (Hpe & Hus & Hq).
  change (updateSubs cleared) with (@nil nat) in Hus.
  change (pendingEvent cleared) with (@None Evt) in Hpe.
  assert (Hw' : w' = processEventWithFilter evt cleared).
  { subst w'. simpl deliver. unfold triggerUpdate.
    destruct (updateSubs w) as [|sid subs]; [congruence|].
    simpl fold_left. unfold processPendingEvent at 2. wsimpl. rewrite Hpending.
    match goal with
    | |- fold_left _ _ (processEventWithFilter evt ?c) = _ =>
        replace c with cleared by (subst cleared; unfold filesOff; destruct w; reflexivity)
    end.
    destruct (update_without_pending subs (processEventWithFilter evt cleared))
      as (rest & Heq & Hnil); [exact Hpe|].
    rewrite Heq, (Hnil Hus).
    pose proof (set_updateSubs_same (processEventWithFilter evt cleared)) as Hsame.
    rewrite Hus in Hsame. exact Hsame. }
  split; [reflexivity|]. split; [reflexivity|]. split; [exact Hw'|].
  rewrite Hw', Hpe, Hus, Hq.
  split; [subst cleared; unfold filesOff, effects; wsimpl;
          rewrite !map_app, !List.filter_app; simpl; rewrite !app_nil_r; reflexivity|].
  split; [reflexivity|]. split; [reflexivity|]. split.
  - simpl deliver. unfold triggerUpdate. rewrite Hus. reflexivity.
  - intros w0 err title url Hno w1. subst w1.
    unfold windowTitleCallback, focusMainWindow, setTimeout, filesOnce, sameRuns.
    destruct err; wsimpl; rewrite Hno; wsimpl; repeat split.
Qed.

(** The deferred trigger of [Sample.deferred] is replayed with the window
    context captured when it arrived. *)
Lemma deferred_trigger_replayed_once_witness :
  let w := deliverAll Sample.deferred Sample.idle in
  pendingEvent w = Some (mkEvt Sample.window)
  /\ pendingEvent (deliver EvFilesUpdate w) = None
  /\ deliver EvFilesUpdate (deliver EvFilesUpdate w) = deliver EvFilesUpdate w.
Proof.
  intros w.
  assert (Hp : pendingEvent w = Some (mkEvt Sample.window)) by reflexivity.
  assert (Hs : updateSubs w <> []) by (vm_compute; discriminate).
  destruct (deferred_trigger_replayed_once (mkEvt Sample.window) w Hp Hs)
    as (_ & _ & _ & _ & Hnone & _ & Honce & _).
  split; [exact Hp|]. split; [exact Hnone|exact Honce].
Defined.

(** C6.  [resetPendingEvent], the handler that [init] registers for
    ['main-window-blur'] and ['main-window-will-close'].  With a trigger
    pending it clears [pendingEvent] and removes the ['update'] listeners;
    with none pending it changes nothing.  An ['update'] that follows finds
    nothing to replay: apart from using up listeners that were left, it
    changes no field and performs no effect. *)
Theorem cancelled_trigger_is_never_replayed (w : World) :
  let w' := resetPendingEvent w in
  pendingEvent w' = None
  /\ (pendingEvent w = None -> w' = w)
  /\ (pendingEvent w <> None ->
      updateSubs w' = []
      /\ sameRuns w w' /\ views w' = views w /\ timers w' = timers w
      /\ selectEntryView w' = selectEntryView w
      /\ deliver EvFilesUpdate w' = w')
  /\ (exists rest, deliver EvFilesUpdate w' = set_updateSubs rest w')
  /\ forall w0 e,
       enabled w0 = true -> bus w0 = [] ->
       deliver (EvTrigger MainWindowBlur e) (init w0) = resetPendingEvent (init w0)
       /\ deliver (EvTrigger MainWindowWillClose e) (init w0) = resetPendingEvent (init w0).
Proof.
  intros w'. subst w'.
  assert (Hnone : pendingEvent (resetPendingEvent w) = None).
  { unfold resetPendingEvent. destruct (pendingEvent w) eqn:E; [reflexivity|exact E]. }
  split; [exact Hnone|]. split; [|split; [|split]].
  - intros Hp. unfold resetPendingEvent. rewrite Hp. reflexivity.
  - intros Hp.
    assert (Hsubs : updateSubs (resetPendingEvent w) = []).
    { unfold resetPendingEvent. destruct (pendingEvent w); [reflexivity|congruence]. }
    split; [exact Hsubs|].
    split; [|split; [|split; [|split]]];
      try (unfold resetPendingEvent, sameRuns, filesOff;
           destruct (pendingEvent w); wsimpl; repeat split; reflexivity).
    simpl deliver. unfold triggerUpdate. rewrite Hsubs. reflexivity.
  - destruct (update_without_pending (updateSubs (resetPendingEvent w))
                (resetPendingEvent w) Hnone) as (rest & Heq & _).
    exists rest. exact Heq.
  - intros w0 e Hen Hbus. unfold init. rewrite Hen. simpl negb. cbv iota.
    simpl deliver. unfold trigger. wsimpl. rewrite Hbus. simpl. split; reflexivity.
Qed.

(** The deferred trigger of [Sample.deferred], cancelled by a blur: the
    ['update'] that follows changes nothing. *)
Lemma cancelled_trigger_is_never_replayed_witness :
  let w := deliverAll Sample.deferred Sample.idle in
  pendingEvent w = Some (mkEvt Sample.window)
  /\ deliver EvFilesUpdate (resetPendingEvent w) = resetPendingEvent w.
Proof.
  intros w. split; [reflexivity|].
  apply (cancelled_trigger_is_never_replayed w). discriminate.
Defined.

(** ** Validation *)

(** C9.  [validate(entry, sequence, callback)] parses and, if that works,
    starts the resolver; when the parser throws the callback gets the
    error.  When the resolver answers, the callback is called with its
    result and nothing else happens: no obfuscation, no execution.  Neither
    step changes [running], [pendingEvent] or [selectEntryView], timers,
    views or listeners, or any other waiting call, and neither depends on
    the three engine fields. *)
Theorem validate_leaves_the_engine_alone
    (e : Entry) (sequence : jsstring) (cb : Callback) (w : World) :
  let id := nextId w in
  let w' := validate e sequence cb w in
  engineState w' = engineState w
  /\ timers w' = timers w /\ views w' = views w
  /\ updateSubs w' = updateSubs w /\ bus w' = bus w
  /\ (forall i, i <> id -> pending w' !! i = pending w !! i)
  /\ match parse (cfg w) sequence with
     | Thrown ex =>
         pending w' = pending w
         /\ effects w' = effects w ++ [Parse id sequence;
                                       CallValidateCallback id cb (Some ex)]
     | Returned _ =>
         pending w' = <[id := PValidate e cb]> (pending w)
         /\ effects w' = effects w ++ [Parse id sequence; Resolve id]
     end
  /\ (forall s p r,
        let wx := set_selectEntryView s (set_pendingEvent p (set_running r w)) in
        engineState (validate e sequence cb wx) = (s, p, r)
        /\ pending (validate e sequence cb wx) = pending w'
        /\ effects (validate e sequence cb wx) = effects w')
  /\ (forall w2 err ops,
        pending w2 !! id = Some (PValidate e cb) ->
        let w3 := deliver (EvResolved id err ops) w2 in
        engineState w3 = engineState w2
        /\ timers w3 = timers w2 /\ views w3 = views w2
        /\ pending w3 = delete id (pending w2)
        /\ effects w3 = effects w2 ++ [CallValidateCallback id cb err]).
Proof.
  intros id w'. subst id w'.
  assert (Hresolved : forall w2 err ops,
            pending w2 !! nextId w = Some (PValidate e cb) ->
            let w3 := deliver (EvResolved (nextId w) err ops) w2 in
            engineState w3 = engineState w2
            /\ timers w3 = timers w2 /\ views w3 = views w2
            /\ pending w3 = delete (nextId w) (pending w2)
            /\ effects w3 = effects w2 ++ [CallValidateCallback (nextId w) cb err]).
  { intros w2 err ops Hp. simpl deliver. rewrite Hp.
    unfold engineState, effects. wsimpl. rewrite map_app. repeat split. }
  assert (Hindep : forall s p r,
            let wx := set_selectEntryView s (set_pendingEvent p (set_running r w)) in
            engineState (validate e sequence cb wx) = (s, p, r)
            /\ pending (validate e sequence cb wx) = pending (validate e sequence cb w)
            /\ effects (validate e sequence cb wx) = effects (validate e sequence cb w)).
  { intros s p r. unfold validate, engineState, effects. wsimpl.
    destruct (parse (cfg w) sequence); wsimpl; rewrite !map_app; repeat split. }
  assert (Hframe : engineState (validate e sequence cb w) = engineState w
            /\ timers (validate e sequence cb w) = timers w
            /\ views (validate e sequence cb w) = views w
            /\ updateSubs (validate e sequence cb w) = updateSubs w
            /\ bus (validate e sequence cb w) = bus w
            /\ (forall i, i <> nextId w ->
                  pending (validate e sequence cb w) !! i = pending w !! i)).
  { unfold validate, engineState. wsimpl.
    destruct (parse (cfg w) sequence); wsimpl; do 5 (split; [reflexivity|]);
      intros i Hi; rewrite ?lookup_insert_ne by congruence; reflexivity. }
  destruct Hframe as (H1 & H2 & H3 & H4 & H5 & H6).
  do 5 (split; [assumption|]). split; [exact H6|].
  split; [|split; [exact Hindep|exact Hresolved]].
  unfold validate, effects. wsimpl.
  destruct (parse (cfg w) sequence); wsimpl;
    rewrite !map_app, <- !app_assoc; split; reflexivity.
Qed.

Lemma validate_leaves_the_engine_alone_witness :
  let w := run Sample.alice (Some CbAlert) Sample.idle in
  running w = true
  /\ engineState (validate Sample.bob (js "{PASSWORD}") (CbExternal 3) w) = engineState w
  /\ pending (validate Sample.bob (js "{PASSWORD}") (CbExternal 3) w) !! 0
     = Some (PResolve Sample.alice (Some CbAlert))
  /\ effects (deliver (EvResolved 1 None [])
                (validate Sample.bob (js "{PASSWORD}") (CbExternal 3) w))
     = effects (validate Sample.bob (js "{PASSWORD}") (CbExternal 3) w)
       ++ [CallValidateCallback 1 (CbExternal 3) None].
Proof.
  intros w.
  pose proof (validate_leaves_the_engine_alone Sample.bob (js "{PASSWORD}") (CbExternal 3) w)
    as (Hstate & _ & _ & _ & _ & Hframe & _ & _ & Hresolved).
  split; [reflexivity|]. split; [exact Hstate|]. split.
  - rewrite Hframe by (vm_compute; congruence). vm_compute. reflexivity.
  - apply Hresolved. vm_compute. reflexivity.
Defined.

(** ** What the methods leave alone *)

Lemma sameDeferral_refl (w : World) : sameDeferral w w.
Proof. split; reflexivity. Qed.

Lemma sameDeferral_trans (w1 w2 w3 : World) :
  sameDeferral w1 w2 -> sameDeferral w2 w3 -> sameDeferral w1 w3.
Proof. intros [H1 H2] [H3 H4]. split; congruence. Qed.

Lemma samePicker_trans (w1 w2 w3 : World) :
  samePicker w1 w2 -> samePicker w2 w3 -> samePicker w1 w3.
Proof. intros [H1 H2] [H3 H4]. split; congruence. Qed.

Ltac frame_cases :=
  unfold sameDeferral, samePicker; wsimpl; cases; repeat split; reflexivity.

Lemma run_frame (e : Entry) (cb : option Callback) (w : World) :
  sameDeferral w (run e cb w) /\ samePicker w (run e cb w).
Proof. unfold run, callCallback. frame_cases. Qed.

Lemma validate_frame (e : Entry) (sequence : jsstring) (cb : Callback) (w : World) :
  sameDeferral w (validate e sequence cb w) /\ samePicker w (validate e sequence cb w).
Proof. unfold validate. frame_cases. Qed.

Lemma invoke_frame (k : Cont) (w : World) :
  sameDeferral w (invoke k w) /\ samePicker w (invoke k w).
Proof. unfold invoke, runAndHandleResult, run, callCallback. frame_cases. Qed.

Lemma hideWindow_frame (k : Cont) (w : World) :
  sameDeferral w (hideWindow k w) /\ samePicker w (hideWindow k w).
Proof.
  unfold hideWindow, setTimeout, invoke, runAndHandleResult, run, callCallback.
  frame_cases.
Qed.

Lemma resolveCallback_frame (id : nat) (e : Entry) (cb : option Callback)
    (err : option Error) (ops : list Op) (w : World) :
  sameDeferral w (resolveCallback id e cb err ops w)
  /\ samePicker w (resolveCallback id e cb err ops w).
Proof. unfold resolveCallback, callCallback. frame_cases. Qed.

Lemma runnerRunCallback_frame (id : nat) (cb : option Callback)
    (err : option Error) (w : World) :
  sameDeferral w (runnerRunCallback id cb err w)
  /\ samePicker w (runnerRunCallback id cb err w).
Proof. unfold runnerRunCallback, callCallback. frame_cases. Qed.

Lemma selectEntryAndRun_frame (w : World) :
  sameDeferral w (selectEntryAndRun w) /\ samePicker w (selectEntryAndRun w).
Proof. unfold selectEntryAndRun. frame_cases. Qed.

Lemma handleEvent_frame (e : option TriggerArg) (w : World) :
  sameDeferral w (handleEvent e w) /\ samePicker w (handleEvent e w).
Proof.
  unfold handleEvent, selectEntryAndRun, hideWindow, setTimeout, invoke,
    runAndHandleResult, run, callCallback.
  frame_cases.
Qed.

Lemma fireTimer_frame (tid : nat) (w : World) :
  sameDeferral w (fireTimer tid w) /\ samePicker w (fireTimer tid w).
Proof.
  unfold fireTimer.
  destruct (timers w !! tid) as [t|]; [|frame_cases].
  destruct (Nat.leb (due t) (now w)); [|frame_cases].
  destruct (invoke_frame (tcont t) (set_timers (delete tid (timers w)) w)) as [H1 H2].
  split; [exact H1|exact H2].
Qed.

(** ** No listener without a stored trigger *)

Lemma ListenerKept_frame (w w' : World) :
  sameDeferral w w' -> ListenerKept w -> ListenerKept w'.
Proof. intros [Hp Hs]. unfold ListenerKept. rewrite Hp, Hs. tauto. Qed.

Lemma processEventWithFilter_sameDeferral (evt : Evt) (w : World) :
  sameDeferral w (processEventWithFilter evt w).
Proof.
  destruct (processEventWithFilter_frame_deferred evt w) as (H1 & H2 & _).
  split; assumption.
Qed.

Lemma resultListener_sameDeferral (result : option Entry) (w : World) :
  sameDeferral w (resultListener result w).
Proof.
  unfold resultListener. cbn zeta.
  destruct (selectEntryView (emit (LogDebug "Entry selected") w)); try (split; reflexivity).
  match goal with
  | |- sameDeferral _ (hideWindow ?k ?c) =>
      apply (sameDeferral_trans w c); [split; reflexivity|apply hideWindow_frame]
  end.
Qed.

Lemma ListenerKept_cleared (evt : Evt) (w : World) :
  pendingEvent w = None -> updateSubs w = [] ->
  ListenerKept (processEventWithFilter evt w).
Proof.
  intros Hp Hs. apply (ListenerKept_frame w); [apply processEventWithFilter_sameDeferral|].
  unfold ListenerKept. rewrite Hp, Hs. tauto.
Qed.

Lemma ListenerKept_resetPendingEvent (w : World) :
  ListenerKept w -> ListenerKept (resetPendingEvent w).
Proof.
  intros H. unfold resetPendingEvent.
  destruct (pendingEvent w) eqn:E; [|exact H].
  unfold ListenerKept. wsimpl. tauto.
Qed.

Lemma ListenerKept_processPendingEvent (w : World) :
  ListenerKept w -> ListenerKept (processPendingEvent w).
Proof.
  intros H. unfold processPendingEvent.
  destruct (pendingEvent w) eqn:E; [|exact H].
  apply ListenerKept_cleared; reflexivity.
Qed.

Lemma ListenerKept_windowTitleCallback (err : option Error) (title url : option jsstring)
    (w : World) :
  ListenerKept w -> ListenerKept (windowTitleCallback err title url w).
Proof.
  intros H. unfold windowTitleCallback. cbn zeta.
  set (w0 := match err with
             | Some e => emit (LogError "Error get window title" e) w
             | None => emit (LogDebug "Window title") w
             end).
  assert (H0 : ListenerKept w0)
    by (apply (ListenerKept_frame w); [subst w0; destruct err; split; reflexivity|exact H]).
  destruct (hasOpenFiles w0); cbn [negb].
  - apply (ListenerKept_frame w0); [apply processEventWithFilter_sameDeferral|exact H0].
  - unfold focusMainWindow, setTimeout, filesOnce, ListenerKept. wsimpl.
    split; [discriminate|]. intros Hnil. apply app_eq_nil in Hnil.
    destruct Hnil as [_ Hnil]. discriminate Hnil.
Qed.

Lemma ListenerKept_trigger (name : BusEvent) (e : option TriggerArg) (w : World) :
  ListenerKept w -> ListenerKept (trigger name e w).
Proof.
  unfold trigger. generalize (bus w) as handlers. intros handlers. revert w.
  induction handlers as [|[n h] handlers IH]; intros w H; [exact H|].
  simpl. apply IH. destruct (BusEvent_eqb n name); [|exact H].
  destruct h; [|apply ListenerKept_resetPendingEvent; exact H].
  apply (ListenerKept_frame w); [apply handleEvent_frame|exact H].
Qed.

(** One [once] listener of an ['update']: it removes itself and calls
    [processPendingEvent]. *)
Lemma ListenerKept_once (sid : nat) (w : World) :
  ListenerKept w ->
  ListenerKept
    (processPendingEvent
       (set_updateSubs (List.filter (fun s => negb (Nat.eqb s sid)) (updateSubs w)) w)).
Proof.
  intros H. unfold processPendingEvent. wsimpl.
  destruct (pendingEvent w) eqn:E.
  - apply ListenerKept_cleared; reflexivity.
  - destruct H as [H _]. specialize (H E).
    unfold ListenerKept. wsimpl. rewrite E, H. simpl. tauto.
Qed.

Lemma ListenerKept_triggerUpdate (w : World) :
  ListenerKept w -> ListenerKept (triggerUpdate w).
Proof.
  unfold triggerUpdate. generalize (updateSubs w) as subs. intros subs. revert w.
  induction subs as [|sid subs IH]; intros w H; [exact H|].
  simpl. apply IH. apply ListenerKept_once. exact H.
Qed.

Lemma ListenerKept_deliver (ev : Event) (w : World) :
  ListenerKept w -> ListenerKept (deliver ev w).
Proof.
  intros H. destruct ev; simpl.
  - unfold init. destruct (negb (enabled w)); exact H.
  - apply (ListenerKept_frame w); [apply run_frame|exact H].
  - apply (ListenerKept_frame w); [apply validate_frame|exact H].
  - apply ListenerKept_trigger; exact H.
  - apply ListenerKept_triggerUpdate; exact H.
  - destruct (pending w !! id) as [[| | |]|]; try exact H.
    apply ListenerKept_windowTitleCallback. exact H.
  - destruct (pending w !! id) as [[| e0 cb | e0 cb | e0 cb]|]; try exact H.
    match goal with
    | |- ListenerKept (resolveCallback _ _ _ _ _ ?c) =>
        apply (ListenerKept_frame c); [apply resolveCallback_frame|exact H]
    end.
  - destruct (pending w !! id) as [[| e0 cb | e0 cb | e0 cb]|]; try exact H.
    match goal with
    | |- ListenerKept (runnerRunCallback _ _ _ ?c) =>
        apply (ListenerKept_frame c); [apply runnerRunCallback_frame|exact H]
    end.
  - destruct (views w !! vid) as [v|]; [|exact H].
    destruct (listening v); [|exact H].
    apply (ListenerKept_frame w); [apply resultListener_sameDeferral|exact H].
  - apply (ListenerKept_frame w); [apply fireTimer_frame|exact H].
  - exact H.
  - exact H.
  - exact H.
Qed.

(** X1.  In every state the engine can reach, a trigger is stored in
    [pendingEvent] exactly when an ['update'] listener is attached: a
    deferred trigger is never left without the listener that replays it,
    and no listener stays behind once the trigger was replayed or
    cancelled. *)
Theorem pending_trigger_iff_update_listener
    (c : Config) (launcher : bool) (evs : list Event) :
  let w := deliverAll evs (initial c launcher) in
  pendingEvent w = None <-> updateSubs w = [].
Proof.
  intros w. subst w. unfold deliverAll.
  assert (H0 : ListenerKept (initial c launcher)) by (split; reflexivity).
  revert H0. generalize (initial c launcher) as w. 
  induction evs as [|ev evs IH]; intros w H; [exact H|].
  simpl. apply IH. apply ListenerKept_deliver. exact H.
Qed.

(** ** The open picker *)

Lemma PickerLive_frame (w w' : World) :
  samePicker w w' -> PickerLive w -> PickerLive w'.
Proof. intros [Hs Hv]. unfold PickerLive. rewrite Hs, Hv. tauto. Qed.

Lemma PickerLive_processEventWithFilter (evt : Evt) (w : World) :
  PickerLive w -> PickerLive (processEventWithFilter evt w).
Proof.
  intros H.
  destruct (Nat.eq_dec (List.length (getEntries w (filter evt))) 1) as [Hone|Hne].
  - unfold processEventWithFilter.
    destruct (getEntries w (filter evt)) as [|e0 [|e1 l]]; try discriminate Hone.
    apply (PickerLive_frame w); [apply hideWindow_frame|exact H].
  - destruct (processEventWithFilter_opens_picker evt w Hne) as (_ & _ & Hs & Hv & _).
    intros vid Hvid. rewrite Hs in Hvid. injection Hvid as <-.
    exists (filter evt). rewrite Hv. apply lookup_insert_eq.
Qed.

Lemma PickerLive_resultListener (result : option Entry) (w : World) :
  PickerLive w -> PickerLive (resultListener result w).
Proof.
  intros H. unfold resultListener. cbn zeta.
  destruct (selectEntryView (emit (LogDebug "Entry selected") w)) eqn:E;
    try (apply (PickerLive_frame w); [split; reflexivity|exact H]).
  match goal with
  | |- PickerLive (hideWindow ?k ?c) =>
      destruct (hideWindow_frame k c) as [_ [Hs _]]
  end.
  intros vid' Hvid. rewrite Hs in Hvid. discriminate Hvid.
Qed.

Lemma PickerLive_resetPendingEvent (w : World) :
  PickerLive w -> PickerLive (resetPendingEvent w).
Proof.
  intros H. unfold resetPendingEvent. destruct (pendingEvent w); [|exact H].
  apply (PickerLive_frame w); [split; reflexivity|exact H].
Qed.

Lemma PickerLive_processPendingEvent (w : World) :
  PickerLive w -> PickerLive (processPendingEvent w).
Proof.
  intros H. unfold processPendingEvent. destruct (pendingEvent w); [|exact H].
  apply PickerLive_processEventWithFilter.
  apply (PickerLive_frame w); [split; reflexivity|exact H].
Qed.

Lemma PickerLive_windowTitleCallback (err : option Error) (title url : option jsstring)
    (w : World) :
  PickerLive w -> PickerLive (windowTitleCallback err title url w).
Proof.
  intros H. unfold windowTitleCallback. cbn zeta.
  set (w0 := match err with
             | Some e => emit (LogError "Error get window title" e) w
             | None => emit (LogDebug "Window title") w
             end).
  assert (H0 : PickerLive w0)
    by (apply (PickerLive_frame w); [subst w0; destruct err; split; reflexivity|exact H]).
  destruct (hasOpenFiles w0); cbn [negb].
  - apply PickerLive_processEventWithFilter. exact H0.
  - apply (PickerLive_frame w0); [|exact H0].
    unfold focusMainWindow, setTimeout, filesOnce, samePicker. wsimpl. split; reflexivity.
Qed.

Lemma PickerLive_trigger (name : BusEvent) (e : option TriggerArg) (w : World) :
  PickerLive w -> PickerLive (trigger name e w).
Proof.
  unfold trigger. generalize (bus w) as handlers. intros handlers. revert w.
  induction handlers as [|[n h] handlers IH]; intros w H; [exact H|].
  simpl. apply IH. destruct (BusEvent_eqb n name); [|exact H].
  destruct h; [|apply PickerLive_resetPendingEvent; exact H].
  apply (PickerLive_frame w); [apply handleEvent_frame|exact H].
Qed.

Lemma PickerLive_triggerUpdate (w : World) :
  PickerLive w -> PickerLive (triggerUpdate w).
Proof.
  unfold triggerUpdate. generalize (updateSubs w) as subs. intros subs. revert w.
  induction subs as [|sid subs IH]; intros w H; [exact H|].
  simpl. apply IH. apply PickerLive_processPendingEvent.
  apply (PickerLive_frame w); [split; reflexivity|exact H].
Qed.

Lemma PickerLive_deliver (ev : Event) (w : World) :
  PickerLive w -> PickerLive (deliver ev w).
Proof.
  intros H. destruct ev; simpl.
  - unfold init. destruct (negb (enabled w)); exact H.
  - apply (PickerLive_frame w); [apply run_frame|exact H].
  - apply (PickerLive_frame w); [apply validate_frame|exact H].
  - apply PickerLive_trigger; exact H.
  - apply PickerLive_triggerUpdate; exact H.
  - destruct (pending w !! id) as [[| | |]|]; try exact H.
    apply PickerLive_windowTitleCallback. exact H.
  - destruct (pending w !! id) as [[| e0 cb | e0 cb | e0 cb]|]; try exact H.
    match goal with
    | |- PickerLive (resolveCallback _ _ _ _ _ ?c) =>
        apply (PickerLive_frame c); [apply resolveCallback_frame|exact H]
    end.
  - destruct (pending w !! id) as [[| e0 cb | e0 cb | e0 cb]|]; try exact H.
    match goal with
    | |- PickerLive (runnerRunCallback _ _ _ ?c) =>
        apply (PickerLive_frame c); [apply runnerRunCallback_frame|exact H]
    end.
  - destruct (views w !! vid) as [v|]; [|exact H].
    destruct (listening v); [|exact H].
    apply PickerLive_resultListener; exact H.
  - apply (PickerLive_frame w); [apply fireTimer_frame|exact H].
  - exact H.
  - exact H.
  - exact H.
Qed.

(** X2.  In every state the engine can reach, the view that
    [selectEntryView] refers to exists, still has its ['result'] listener
    and has not been removed: the picker the engine considers open can
    always deliver its result. *)
Theorem open_picker_is_live (c : Config) (launcher : bool) (evs : list Event) :
  let w := deliverAll evs (initial c launcher) in
  forall vid, selectEntryView w = SevView vid ->
    exists f, views w !! vid = Some (mkView f true false).
Proof.
  intros w. subst w. unfold deliverAll.
  assert (H0 : PickerLive (initial c launcher)) by (intros vid Hv; discriminate Hv).
  revert H0. generalize (initial c launcher) as w.
  induction evs as [|ev evs IH]; intros w H; [exact H|].
  simpl. apply IH. apply PickerLive_deliver. exact H.
Qed.

Lemma open_picker_is_live_witness :
  exists f,
    views (deliverAll (EvInit :: Sample.twoMatches) (initial Sample.config true)) !! 2
    = Some (mkView f true false).
Proof.
  apply (open_picker_is_live Sample.config true (EvInit :: Sample.twoMatches) 2).
  vm_compute. reflexivity.
Defined.

(** ** [running] and the waiting runs *)

Lemma Busy_keeps (w w' : World) : keepsRuns w w' -> Busy w -> Busy w'.
Proof.
  intros [Hr Hk] H Hrun. rewrite Hr in Hrun.
  destruct (H Hrun) as (id & p & Hp & Hpipe). exists id, p. auto.
Qed.

Lemma keepsRuns_same (w w' : World) :
  running w' = running w -> pending w' = pending w -> keepsRuns w w'.
Proof. intros Hr Hp. split; [exact Hr|]. rewrite Hp. auto. Qed.

Lemma Busy_idle (w : World) : running w = false -> Busy w.
Proof. intros Hr Hrun. congruence. Qed.

Lemma Busy_run (e : Entry) (cb : option Callback) (w : World) : Busy (run e cb w).
Proof.
  unfold run. wsimpl.
  destruct (parse (cfg w) (getEffectiveAutoTypeSeq e)) as [ops|ex].
  - intros _. exists (nextId w), (PResolve e cb). wsimpl.
    split; [apply lookup_insert_eq|reflexivity].
  - apply Busy_idle.
    match goal with
    | |- running (callCallback ?i ?c ?r ?w0) = _ =>
        destruct (callCallback_fields i c r w0) as (Hr & _); rewrite Hr
    end.
    reflexivity.
Qed.

Lemma Busy_invoke (k : Cont) (w : World) : Busy w -> Busy (invoke k w).
Proof.
  intros H. rewrite invoke_spec.
  destruct k as [e|[r|]| |n]; try apply Busy_run;
    (apply (Busy_keeps w); [apply keepsRuns_same; reflexivity|exact H]).
Qed.

Lemma Busy_hideWindow (k : Cont) (w : World) : Busy w -> Busy (hideWindow k w).
Proof.
  intros H. pose proof (hideWindow_spec k w) as Hh. cbn zeta in Hh.
  destruct (isAppFocused w).
  - destruct Hh as (_ & [Hp Hr] & _).
    apply (Busy_keeps w); [apply keepsRuns_same; assumption|exact H].
  - rewrite Hh. apply Busy_invoke.
    apply (Busy_keeps w); [apply keepsRuns_same; reflexivity|exact H].
Qed.

Lemma Busy_processEventWithFilter (evt : Evt) (w : World) :
  Busy w -> Busy (processEventWithFilter evt w).
Proof.
  intros H.
  destruct (Nat.eq_dec (List.length (getEntries w (filter evt))) 1) as [Hone|Hne].
  - unfold processEventWithFilter.
    destruct (getEntries w (filter evt)) as [|e0 [|e1 l]]; try discriminate Hone.
    apply Busy_hideWindow. exact H.
  - destruct (processEventWithFilter_opens_picker evt w Hne) as ([Hp Hr] & _).
    apply (Busy_keeps w); [apply keepsRuns_same; assumption|exact H].
Qed.

Lemma Busy_resultListener (result : option Entry) (w : World) :
  Busy w -> Busy (resultListener result w).
Proof.
  intros H. unfold resultListener. cbn zeta.
  destruct (selectEntryView (emit (LogDebug "Entry selected") w));
    try (apply (Busy_keeps w); [apply keepsRuns_same; reflexivity|exact H]).
  apply Busy_hideWindow.
  apply (Busy_keeps w); [apply keepsRuns_same; reflexivity|exact H].
Qed.

Lemma Busy_resetPendingEvent (w : World) : Busy w -> Busy (resetPendingEvent w).
Proof.
  intros H. unfold resetPendingEvent. destruct (pendingEvent w); [|exact H].
  apply (Busy_keeps w); [apply keepsRuns_same; reflexivity|exact H].
Qed.

Lemma Busy_processPendingEvent (w : World) : Busy w -> Busy (processPendingEvent w).
Proof.
  intros H. unfold processPendingEvent. destruct (pendingEvent w); [|exact H].
  apply Busy_processEventWithFilter.
  apply (Busy_keeps w); [apply keepsRuns_same; reflexivity|exact H].
Qed.

Lemma Busy_windowTitleCallback (err : option Error) (title url : option jsstring)
    (w : World) :
  Busy w -> Busy (windowTitleCallback err title url w).
Proof.
  intros H. unfold windowTitleCallback. cbn zeta.
  set (w0 := match err with
             | Some e => emit (LogError "Error get window title" e) w
             | None => emit (LogDebug "Window title") w
             end).
  assert (H0 : Busy w0)
    by (apply (Busy_keeps w);
        [subst w0; destruct err; apply keepsRuns_same; reflexivity|exact H]).
  destruct (hasOpenFiles w0); cbn [negb].
  - apply Busy_processEventWithFilter. exact H0.
  - apply (Busy_keeps w0); [|exact H0].
    unfold focusMainWindow, setTimeout, filesOnce. apply keepsRuns_same; reflexivity.
Qed.

(** A call registered under a new identity does not displace a waiting
    run. *)
Lemma keepsRuns_register (p : Pending) (w w' : World) :
  Disciplined w ->
  running w' = running w ->
  pending w' = <[nextId w := p]> (pending w) ->
  keepsRuns w w'.
Proof.
  intros Hd Hr Hp. split; [exact Hr|]. intros id q Hq _. rewrite Hp.
  destruct (decide (nextId w = id)) as [<-|Hne].
  - destruct (calls_allocated w Hd (nextId w) (Nat.le_refl _)) as [_ Hnone]. congruence.
  - rewrite lookup_insert_ne by assumption. exact Hq.
Qed.

Lemma Busy_selectEntryAndRun (w : World) :
  Disciplined w -> Busy w -> Busy (selectEntryAndRun w).
Proof.
  intros Hd H. apply (Busy_keeps w); [|exact H].
  apply (keepsRuns_register PTitle); [exact Hd|reflexivity|reflexivity].
Qed.

Lemma Busy_validate (e : Entry) (sequence : jsstring) (cb : Callback) (w : World) :
  Disciplined w -> Busy w -> Busy (validate e sequence cb w).
Proof.
  intros Hd H. apply (Busy_keeps w); [|exact H]. unfold validate. wsimpl.
  destruct (parse (cfg w) sequence).
  - apply (keepsRuns_register (PValidate e cb)); [exact Hd|reflexivity|reflexivity].
  - apply keepsRuns_same; reflexivity.
Qed.

Lemma Busy_handleEvent (e : option TriggerArg) (w : World) :
  Disciplined w -> Busy w -> Busy (handleEvent e w).
Proof.
  intros Hd H. unfold handleEvent. wsimpl.
  assert (Hd0 : Disciplined (emit (LogDebug "Auto type event") w)) by disc_auto.
  assert (H0 : Busy (emit (LogDebug "Auto type event") w))
    by (apply (Busy_keeps w); [apply keepsRuns_same; reflexivity|exact H]).
  destruct (running w).
  - apply (Busy_keeps w); [apply keepsRuns_same; reflexivity|exact H].
  - destruct (match e with Some a => entry a | None => None end).
    + apply Busy_hideWindow. exact H0.
    + destruct (truthy (selectEntryView w)); [exact H0|].
      destruct (isAppFocused w).
      * apply (Busy_keeps w); [apply keepsRuns_same; reflexivity|exact H].
      * apply Busy_selectEntryAndRun; assumption.
Qed.

Lemma Busy_trigger (name : BusEvent) (e : option TriggerArg) (w : World) :
  Disciplined w -> Busy w -> Busy (trigger name e w).
Proof.
  unfold trigger. generalize (bus w) as handlers. intros handlers. revert w.
  induction handlers as [|[n h] handlers IH]; intros w Hd H; [exact H|].
  simpl. destruct (BusEvent_eqb n name); [|apply IH; assumption].
  destruct h; apply IH;
    [apply Disciplined_handleEvent|apply Busy_handleEvent
    |apply Disciplined_resetPendingEvent|apply Busy_resetPendingEvent]; assumption.
Qed.

Lemma Busy_triggerUpdate (w : World) : Busy w -> Busy (triggerUpdate w).
Proof.
  unfold triggerUpdate. generalize (updateSubs w) as subs. intros subs. revert w.
  induction subs as [|sid subs IH]; intros w H; [exact H|].
  simpl. apply IH. apply Busy_processPendingEvent.
  apply (Busy_keeps w); [apply keepsRuns_same; reflexivity|exact H].
Qed.

Lemma Busy_resolveCallback (id : nat) (e : Entry) (cb : option Callback)
    (err : option Error) (ops : list Op) (w : World) :
  Busy (resolveCallback id e cb err ops w).
Proof.
  unfold resolveCallback.
  assert (Hfail : forall er w0, running w0 = false -> Busy (callCallback id cb er w0)).
  { intros er w0 Hr. apply Busy_idle.
    destruct (callCallback_fields id cb er w0) as (Hr' & _). congruence. }
  assert (Hexec : forall ops' w0,
            Busy (set_pending (<[id := PExecute e cb]> (pending (emit (Execute id ops') w0)))
                    (emit (Execute id ops') w0))).
  { intros ops' w0 _. exists id, (PExecute e cb). wsimpl.
    split; [apply lookup_insert_eq|reflexivity]. }
  destruct err as [er|]; cbn zeta; [apply Hfail; reflexivity|].
  destruct (autoTypeObfuscation e); [|apply Hexec].
  destruct (obfuscate _ ops); [apply Hexec|apply Hfail; reflexivity].
Qed.

Lemma Busy_runnerRunCallback (id : nat) (cb : option Callback) (err : option Error)
    (w : World) :
  Busy (runnerRunCallback id cb err w).
Proof.
  unfold runnerRunCallback. apply Busy_idle.
  destruct err; cbn zeta;
    match goal with
    | |- running (callCallback ?i ?c ?r ?w0) = _ =>
        destruct (callCallback_fields i c r w0) as (Hr & _); rewrite Hr
    end; reflexivity.
Qed.

(** Taking out a call that is no run keeps the waiting runs. *)
Lemma keepsRuns_answer (id : nat) (p : Pending) (w : World) :
  pending w !! id = Some p -> isPipeline p = false ->
  keepsRuns w (set_pending (delete id (pending w)) w).
Proof.
  intros Hp Hno. split; [reflexivity|]. intros id' q Hq Hpipe. wsimpl.
  destruct (decide (id = id')) as [<-|Hne]; [congruence|].
  rewrite lookup_delete_ne by assumption. exact Hq.
Qed.

Lemma Busy_deliver (ev : Event) (w : World) :
  Disciplined w -> Busy w -> Busy (deliver ev w).
Proof.
  intros Hd H. destruct ev; simpl.
  - unfold init. destruct (negb (enabled w)); [exact H|].
    apply (Busy_keeps w); [apply keepsRuns_same; reflexivity|exact H].
  - apply Busy_run.
  - apply Busy_validate; assumption.
  - apply Busy_trigger; assumption.
  - apply Busy_triggerUpdate; assumption.
  - destruct (pending w !! id) as [[| | |]|] eqn:Hp; try exact H.
    apply Busy_windowTitleCallback.
    apply (Busy_keeps w); [apply (keepsRuns_answer id PTitle); auto|exact H].
  - destruct (pending w !! id) as [[| e0 cb | e0 cb | e0 cb]|] eqn:Hp; try exact H.
    + apply Busy_resolveCallback.
    + apply (Busy_keeps w); [|exact H].
      destruct (keepsRuns_answer id (PValidate e0 cb) w Hp eq_refl) as [Hr Hk].
      split; [exact Hr|exact Hk].
  - destruct (pending w !! id) as [[| e0 cb | e0 cb | e0 cb]|] eqn:Hp; try exact H.
    apply Busy_runnerRunCallback.
  - destruct (views w !! vid) as [v|]; [|exact H].
    destruct (listening v); [|exact H].
    apply Busy_resultListener; exact H.
  - unfold fireTimer. destruct (timers w !! tid) as [t|]; [|exact H].
    destruct (Nat.leb (due t) (now w)); [|exact H].
    apply Busy_invoke.
    apply (Busy_keeps w); [apply keepsRuns_same; reflexivity|exact H].
  - apply (Busy_keeps w); [apply keepsRuns_same; reflexivity|exact H].
  - apply (Busy_keeps w); [apply keepsRuns_same; reflexivity|exact H].
  - apply (Busy_keeps w); [apply keepsRuns_same; reflexivity|exact H].
Qed.

(** X3.  In every state the engine can reach, [running] is set only while
    some run waits for its resolver or its executor.  So once every
    collaborator has answered, [running] is false and the next trigger is
    accepted: no failure leaves the engine blocked. *)
Theorem running_only_while_a_run_waits
    (c : Config) (launcher : bool) (evs : list Event) :
  let w := deliverAll evs (initial c launcher) in
  inFlight w = [] -> running w = false.
Proof.
  intros w. subst w. unfold deliverAll.
  assert (H : Disciplined (deliverAll evs (initial c launcher))
              /\ Busy (deliverAll evs (initial c launcher))).
  { unfold deliverAll.
    assert (H0 : Disciplined (initial c launcher) /\ Busy (initial c launcher))
      by (split; [apply Disciplined_initial|apply Busy_idle; reflexivity]).
    revert H0. generalize (initial c launcher) as w.
    induction evs as [|ev evs IH]; intros w [Hd Hb]; [split; assumption|].
    simpl. apply IH. split; [apply Disciplined_deliver|apply Busy_deliver]; assumption. }
  destruct H as [_ Hb]. unfold deliverAll in Hb. intros Hnone.
  destruct (running _) eqn:Hr; [|reflexivity].
  destruct (Hb Hr) as (id & p & Hp & Hpipe).
  assert (Hin : In id (inFlight (fold_left (fun w ev => deliver ev w) evs (initial c launcher)))).
  { unfold inFlight. apply in_map_iff. exists (id, p). split; [reflexivity|].
    apply List.filter_In. split; [|exact Hpipe].
    apply list_elem_of_In. apply elem_of_map_to_list. exact Hp. }
  rewrite Hnone in Hin. destruct Hin.
Qed.

Lemma running_only_while_a_run_waits_witness :
  running (deliverAll (EvInit :: Sample.completed) (initial Sample.config true)) = false.
Proof.
  apply (running_only_while_a_run_waits Sample.config true (EvInit :: Sample.completed)).
  vm_compute. reflexivity.
Defined.

(** ** Alerts *)

Lemma Adds_refl (w : World) : Adds w w.
Proof. exists []. rewrite app_nil_r. split; reflexivity. Qed.

Lemma Adds_trans (w1 w2 w3 : World) : Adds w1 w2 -> Adds w2 w3 -> Adds w1 w3.
Proof.
  intros (d1 & H1 & B1) (d2 & H2 & B2). exists (d1 ++ d2).
  rewrite H2, H1, app_assoc. split; [reflexivity|].
  unfold genericAlerts, triggerFailures in *. rewrite !omap_app. congruence.
Qed.

Lemma Adds_same (w w' : World) : trace w' = trace w -> Adds w w'.
Proof. intros H. exists []. rewrite app_nil_r. split; [exact H|reflexivity]. Qed.

(** Effects written one after the other, none of them an alert or a
    call of a callback. *)
Ltac adds_direct :=
  unfold Adds; wsimpl;
  first [ solve [exists []; rewrite app_nil_r; split; reflexivity]
        | eexists; split; [rewrite <- ?app_assoc; simpl; reflexivity|reflexivity] ].

Lemma Adds_callCallback (id : nat) (cb : option Callback) (err : option Error) (w : World) :
  Adds w (callCallback id cb err w).
Proof. unfold callCallback. destruct cb as [[|n]|]; [destruct err|..]; adds_direct. Qed.

Lemma Adds_run (e : Entry) (cb : option Callback) (w : World) : Adds w (run e cb w).
Proof.
  unfold run. wsimpl. destruct (parse (cfg w) (getEffectiveAutoTypeSeq e)).
  - adds_direct.
  - eapply Adds_trans; [|apply Adds_callCallback]. adds_direct.
Qed.

Lemma Adds_validate (e : Entry) (sequence : jsstring) (cb : Callback) (w : World) :
  Adds w (validate e sequence cb w).
Proof. unfold validate. wsimpl. destruct (parse (cfg w) sequence); adds_direct. Qed.

Lemma Adds_invoke (k : Cont) (w : World) : Adds w (invoke k w).
Proof.
  rewrite invoke_spec.
  destruct k as [e|[r|]| |n];
    try (eapply Adds_trans; [|apply Adds_run]); adds_direct.
Qed.

Lemma Adds_hideWindow (k : Cont) (w : World) : Adds w (hideWindow k w).
Proof.
  unfold hideWindow. wsimpl. destruct (isAppFocused w).
  - unfold setTimeout. adds_direct.
  - eapply Adds_trans; [|apply Adds_invoke]. adds_direct.
Qed.

Lemma Adds_processEventWithFilter (evt : Evt) (w : World) :
  Adds w (processEventWithFilter evt w).
Proof.
  unfold processEventWithFilter.
  destruct (getEntries w (filter evt)) as [|e0 [|e1 l]];
    try apply Adds_hideWindow; unfold focusMainWindow, setTimeout; adds_direct.
Qed.

Lemma Adds_resultListener (result : option Entry) (w : World) :
  Adds w (resultListener result w).
Proof.
  unfold resultListener. wsimpl.
  destruct (selectEntryView w); try adds_direct.
  eapply Adds_trans; [|apply Adds_hideWindow]. adds_direct.
Qed.

Lemma Adds_resetPendingEvent (w : World) : Adds w (resetPendingEvent w).
Proof.
  unfold resetPendingEvent, filesOff. destruct (pendingEvent w); adds_direct.
Qed.

Lemma Adds_processPendingEvent (w : World) : Adds w (processPendingEvent w).
Proof.
  unfold processPendingEvent. destruct (pendingEvent w); [|apply Adds_refl].
  eapply Adds_trans; [|apply Adds_processEventWithFilter].
  unfold filesOff. adds_direct.
Qed.

Lemma Adds_windowTitleCallback (err : option Error) (title url : option jsstring)
    (w : World) :
  Adds w (windowTitleCallback err title url w).
Proof.
  unfold windowTitleCallback. cbn zeta.
  set (w0 := match err with
             | Some e => emit (LogError "Error get window title" e) w
             | None => emit (LogDebug "Window title") w
             end).
  assert (H0 : Adds w w0) by (subst w0; destruct err; adds_direct).
  apply (Adds_trans w w0); [exact H0|].
  destruct (hasOpenFiles w0); cbn [negb].
  - apply Adds_processEventWithFilter.
  - unfold focusMainWindow, setTimeout, filesOnce. adds_direct.
Qed.

Lemma Adds_handleEvent (e : option TriggerArg) (w : World) : Adds w (handleEvent e w).
Proof.
  unfold handleEvent. wsimpl.
  destruct (running w); [adds_direct|].
  destruct (match e with Some a => entry a | None => None end).
  - eapply Adds_trans; [|apply Adds_hideWindow]. adds_direct.
  - destruct (truthy (selectEntryView w)); [adds_direct|].
    destruct (isAppFocused w); [adds_direct|].
    unfold selectEntryAndRun. adds_direct.
Qed.

Lemma Adds_trigger (name : BusEvent) (e : option TriggerArg) (w : World) :
  Adds w (trigger name e w).
Proof.
  unfold trigger. generalize (bus w) as handlers. intros handlers.
  assert (H : forall w', Adds w w' ->
            Adds w (fold_left (fun w0 '(n, h) =>
                                 if BusEvent_eqb n name then callHandler h e w0 else w0)
                              handlers w')).
  { induction handlers as [|[n h] handlers IH]; intros w' Hw'; [exact Hw'|].
    simpl. apply IH. destruct (BusEvent_eqb n name); [|exact Hw'].
    apply (Adds_trans w w'); [exact Hw'|].
    destruct h; [apply Adds_handleEvent|apply Adds_resetPendingEvent]. }
  apply H, Adds_refl.
Qed.

Lemma Adds_triggerUpdate (w : World) : Adds w (triggerUpdate w).
Proof.
  unfold triggerUpdate. generalize (updateSubs w) as subs. intros subs.
  assert (H : forall w', Adds w w' ->
            Adds w (fold_left
                      (fun w0 sid =>
                         processPendingEvent
                           (set_updateSubs
                              (List.filter (fun s => negb (Nat.eqb s sid)) (updateSubs w0)) w0))
                      subs w')).
  { induction subs as [|sid subs IH]; intros w' Hw'; [exact Hw'|].
    simpl. apply IH. apply (Adds_trans w w'); [exact Hw'|].
    eapply Adds_trans; [|apply Adds_processPendingEvent]. apply Adds_same. reflexivity. }
  apply H, Adds_refl.
Qed.

Lemma Adds_resolveCallback (id : nat) (e : Entry) (cb : option Callback)
    (err : option Error) (ops : list Op) (w : World) :
  Adds w (resolveCallback id e cb err ops w).
Proof.
  unfold resolveCallback.
  destruct err as [er|]; cbn zeta;
    [eapply Adds_trans; [|apply Adds_callCallback]; adds_direct|].
  destruct (autoTypeObfuscation e); [|adds_direct].
  destruct (obfuscate _ ops);
    [adds_direct|eapply Adds_trans; [|apply Adds_callCallback]; adds_direct].
Qed.

Lemma Adds_runnerRunCallback (id : nat) (cb : option Callback) (err : option Error)
    (w : World) :
  Adds w (runnerRunCallback id cb err w).
Proof.
  unfold runnerRunCallback.
  destruct err; cbn zeta; (eapply Adds_trans; [|apply Adds_callCallback]); adds_direct.
Qed.

Lemma Adds_deliver (ev : Event) (w : World) : Adds w (deliver ev w).
Proof.
  destruct ev; simpl.
  - unfold init. destruct (negb (enabled w)); adds_direct.
  - apply Adds_run.
  - apply Adds_validate.
  - apply Adds_trigger.
  - apply Adds_triggerUpdate.
  - destruct (pending w !! id) as [[| | |]|]; try apply Adds_refl.
    eapply Adds_trans; [|apply Adds_windowTitleCallback]. apply Adds_same. reflexivity.
  - destruct (pending w !! id) as [[| e0 cb | e0 cb | e0 cb]|]; try apply Adds_refl.
    + eapply Adds_trans; [|apply Adds_resolveCallback]. apply Adds_same. reflexivity.
    + adds_direct.
  - destruct (pending w !! id) as [[| e0 cb | e0 cb | e0 cb]|]; try apply Adds_refl.
    eapply Adds_trans; [|apply Adds_runnerRunCallback]. apply Adds_same. reflexivity.
  - destruct (views w !! vid) as [v|]; [|apply Adds_refl].
    destruct (listening v); [apply Adds_resultListener|apply Adds_refl].
  - unfold fireTimer. destruct (timers w !! tid) as [t|]; [|apply Adds_refl].
    destruct (Nat.leb (due t) (now w)); [|apply Adds_refl].
    eapply Adds_trans; [|apply Adds_invoke]. apply Adds_same. reflexivity.
  - apply Adds_same. reflexivity.
  - apply Adds_same. reflexivity.
  - apply Adds_same. reflexivity.
Qed.

(** ** Alerts and logged errors *)

Lemma Surfaces_refl (w : World) : Surfaces w w.
Proof. exists []. rewrite app_nil_r. split; reflexivity. Qed.

Lemma Surfaces_trans (w1 w2 w3 : World) :
  Surfaces w1 w2 -> Surfaces w2 w3 -> Surfaces w1 w3.
Proof.
  intros (d1 & H1 & B1) (d2 & H2 & B2). exists (d1 ++ d2).
  rewrite H2, H1, app_assoc. split; [reflexivity|].
  unfold genericAlerts, runErrors in *. rewrite !omap_app. congruence.
Qed.

Lemma Surfaces_same (w w' : World) : trace w' = trace w -> Surfaces w w'.
Proof. intros H. exists []. rewrite app_nil_r. split; [exact H|reflexivity]. Qed.

(** Effects written one after the other: every logged stage error is
    followed by its alert, and there is no other alert. *)
Ltac surf_direct :=
  unfold Surfaces; wsimpl;
  first [ solve [exists []; rewrite app_nil_r; split; reflexivity]
        | eexists; split; [rewrite <- ?app_assoc; simpl; reflexivity|reflexivity] ].

Lemma AlertRuns_same (w w' : World) : pending w' = pending w -> AlertRuns w -> AlertRuns w'.
Proof. unfold AlertRuns. intros -> H. exact H. Qed.

Lemma AlertRuns_insert (id : nat) (p : Pending) (w w' : World) :
  pending w' = <[id := p]> (pending w) ->
  match p with PResolve _ cb | PExecute _ cb => cb = Some CbAlert | _ => True end ->
  AlertRuns w -> AlertRuns w'.
Proof.
  unfold AlertRuns. intros -> Hp H i q Hq.
  destruct (decide (i = id)) as [->|Hne].
  - rewrite lookup_insert_eq in Hq. inversion Hq; subst. exact Hp.
  - rewrite lookup_insert_ne in Hq by congruence. exact (H i q Hq).
Qed.

Lemma AlertRuns_delete (id : nat) (w w' : World) :
  pending w' = delete id (pending w) -> AlertRuns w -> AlertRuns w'.
Proof.
  unfold AlertRuns. intros -> H i q Hq.
  destruct (decide (i = id)) as [->|Hne].
  - rewrite lookup_delete_eq in Hq. discriminate.
  - rewrite lookup_delete_ne in Hq by congruence. exact (H i q Hq).
Qed.

Lemma Keeps_refl (w : World) : Keeps w w.
Proof. intros H. split; [exact H|apply Surfaces_refl]. Qed.

Lemma Keeps_trans (w1 w2 w3 : World) : Keeps w1 w2 -> Keeps w2 w3 -> Keeps w1 w3.
Proof.
  intros H12 H23 H1. destruct (H12 H1) as [H2 S12]. destruct (H23 H2) as [H3 S23].
  split; [exact H3|exact (Surfaces_trans _ _ _ S12 S23)].
Qed.

(** A step that leaves the waiting calls alone, registers one, or takes
    one out. *)
Ltac keeps_direct :=
  intros ?HA; split;
  [ first [ solve [eapply AlertRuns_same; [|eassumption]; wsimpl; reflexivity]
          | solve [eapply AlertRuns_insert; [| |eassumption]; wsimpl; reflexivity]
          | solve [eapply AlertRuns_delete; [|eassumption]; wsimpl; reflexivity] ]
  | surf_direct ].

Lemma Keeps_run (e : Entry) (w : World) : Keeps w (run e (Some CbAlert) w).
Proof.
  unfold run, callCallback. wsimpl.
  destruct (parse (cfg w) (getEffectiveAutoTypeSeq e)); keeps_direct.
Qed.

Lemma Keeps_validate (e : Entry) (sequence : jsstring) (cb : Callback) (w : World) :
  Keeps w (validate e sequence cb w).
Proof. unfold validate. wsimpl. destruct (parse (cfg w) sequence); keeps_direct. Qed.

Lemma Keeps_invoke (k : Cont) (w : World) : Keeps w (invoke k w).
Proof.
  rewrite invoke_spec.
  destruct k as [e|[r|]| |n];
    try (eapply Keeps_trans; [|apply Keeps_run]); keeps_direct.
Qed.

Lemma Keeps_hideWindow (k : Cont) (w : World) : Keeps w (hideWindow k w).
Proof.
  unfold hideWindow. wsimpl. destruct (isAppFocused w).
  - unfold setTimeout. keeps_direct.
  - eapply Keeps_trans; [|apply Keeps_invoke]. keeps_direct.
Qed.

Lemma Keeps_processEventWithFilter (evt : Evt) (w : World) :
  Keeps w (processEventWithFilter evt w).
Proof.
  unfold processEventWithFilter.
  destruct (getEntries w (filter evt)) as [|e0 [|e1 l]];
    try apply Keeps_hideWindow; unfold focusMainWindow, setTimeout; keeps_direct.
Qed.

Lemma Keeps_resultListener (result : option Entry) (w : World) :
  Keeps w (resultListener result w).
Proof.
  unfold resultListener. wsimpl.
  destruct (selectEntryView w); try keeps_direct.
  eapply Keeps_trans; [|apply Keeps_hideWindow]. keeps_direct.
Qed.

Lemma Keeps_resetPendingEvent (w : World) : Keeps w (resetPendingEvent w).
Proof.
  unfold resetPendingEvent, filesOff. destruct (pendingEvent w); keeps_direct.
Qed.

Lemma Keeps_processPendingEvent (w : World) : Keeps w (processPendingEvent w).
Proof.
  unfold processPendingEvent. destruct (pendingEvent w); [|apply Keeps_refl].
  eapply Keeps_trans; [|apply Keeps_processEventWithFilter].
  unfold filesOff. keeps_direct.
Qed.

Lemma Keeps_windowTitleCallback (err : option Error) (title url : option jsstring)
    (w : World) :
  Keeps w (windowTitleCallback err title url w).
Proof.
  unfold windowTitleCallback. cbn zeta.
  set (w0 := match err with
             | Some e => emit (LogError "Error get window title" e) w
             | None => emit (LogDebug "Window title") w
             end).
  assert (H0 : Keeps w w0) by (subst w0; destruct err; keeps_direct).
  apply (Keeps_trans w w0); [exact H0|].
  destruct (hasOpenFiles w0); cbn [negb].
  - apply Keeps_processEventWithFilter.
  - unfold focusMainWindow, setTimeout, filesOnce. keeps_direct.
Qed.

Lemma Keeps_handleEvent (e : option TriggerArg) (w : World) : Keeps w (handleEvent e w).
Proof.
  unfold handleEvent. wsimpl.
  destruct (running w); [keeps_direct|].
  destruct (match e with Some a => entry a | None => None end).
  - eapply Keeps_trans; [|apply Keeps_hideWindow]. keeps_direct.
  - destruct (truthy (selectEntryView w)); [keeps_direct|].
    destruct (isAppFocused w); [keeps_direct|].
    unfold selectEntryAndRun. keeps_direct.
Qed.

Lemma Keeps_trigger (name : BusEvent) (e : option TriggerArg) (w : World) :
  Keeps w (trigger name e w).
Proof.
  unfold trigger. generalize (bus w) as handlers. intros handlers.
  assert (H : forall w', Keeps w w' ->
            Keeps w (fold_left (fun w0 '(n, h) =>
                                  if BusEvent_eqb n name then callHandler h e w0 else w0)
                               handlers w')).
  { induction handlers as [|[n h] handlers IH]; intros w' Hw'; [exact Hw'|].
    simpl. apply IH. destruct (BusEvent_eqb n name); [|exact Hw'].
    apply (Keeps_trans w w'); [exact Hw'|].
    destruct h; [apply Keeps_handleEvent|apply Keeps_resetPendingEvent]. }
  apply H, Keeps_refl.
Qed.

Lemma Keeps_triggerUpdate (w : World) : Keeps w (triggerUpdate w).
Proof.
  unfold triggerUpdate. generalize (updateSubs w) as subs. intros subs.
  assert (H : forall w', Keeps w w' ->
            Keeps w (fold_left
                       (fun w0 sid =>
                          processPendingEvent
                            (set_updateSubs
                               (List.filter (fun s => negb (Nat.eqb s sid)) (updateSubs w0)) w0))
                       subs w')).
  { induction subs as [|sid subs IH]; intros w' Hw'; [exact Hw'|].
    simpl. apply IH. apply (Keeps_trans w w'); [exact Hw'|].
    eapply Keeps_trans; [|apply Keeps_processPendingEvent]. keeps_direct. }
  apply H, Keeps_refl.
Qed.

Lemma Keeps_resolveCallback (id : nat) (e : Entry) (err : option Error) (ops : list Op)
    (w : World) :
  Keeps w (resolveCallback id e (Some CbAlert) err ops w).
Proof.
  unfold resolveCallback, callCallback.
  destruct err as [er|]; cbn zeta; [keeps_direct|].
  destruct (autoTypeObfuscation e); [|keeps_direct].
  destruct (obfuscate _ ops); keeps_direct.
Qed.

Lemma Keeps_runnerRunCallback (id : nat) (err : option Error) (w : World) :
  Keeps w (runnerRunCallback id (Some CbAlert) err w).
Proof. unfold runnerRunCallback, callCallback. destruct err; cbn zeta; keeps_direct. Qed.

(** Taking the answered call out of the waiting calls. *)
Lemma Keeps_answer (id : nat) (w : World) :
  Keeps w (set_pending (delete id (pending w)) w).
Proof. keeps_direct. Qed.

Lemma Keeps_deliver (ev : Event) (w : World) :
  isApiRun ev = false -> Keeps w (deliver ev w).
Proof.
  intros Hev. destruct ev; simpl; try discriminate Hev.
  - unfold init. destruct (negb (enabled w)); keeps_direct.
  - apply Keeps_validate.
  - apply Keeps_trigger.
  - apply Keeps_triggerUpdate.
  - destruct (pending w !! id) as [[| | |]|]; try apply Keeps_refl.
    eapply Keeps_trans; [apply Keeps_answer|apply Keeps_windowTitleCallback].
  - destruct (pending w !! id) as [[| e0 cb | e0 cb | e0 cb]|] eqn:Hp; try apply Keeps_refl.
    + intros HA. pose proof (HA id _ Hp) as Hcb. simpl in Hcb. subst cb. revert HA.
      eapply Keeps_trans; [apply Keeps_answer|apply Keeps_resolveCallback].
    + keeps_direct.
  - destruct (pending w !! id) as [[| e0 cb | e0 cb | e0 cb]|] eqn:Hp; try apply Keeps_refl.
    intros HA. pose proof (HA id _ Hp) as Hcb. simpl in Hcb. subst cb. revert HA.
    eapply Keeps_trans; [apply Keeps_answer|apply Keeps_runnerRunCallback].
  - destruct (views w !! vid) as [v|]; [|apply Keeps_refl].
    destruct (listening v); [apply Keeps_resultListener|apply Keeps_refl].
  - unfold fireTimer. destruct (timers w !! tid) as [t|]; [|apply Keeps_refl].
    destruct (Nat.leb (due t) (now w)); [|apply Keeps_refl].
    eapply Keeps_trans; [|apply Keeps_invoke]. keeps_direct.
  - keeps_direct.
  - keeps_direct.
  - keeps_direct.
Qed.

Lemma Keeps_deliverAll (evs : list Event) (w : World) :
  forallb (fun ev => negb (isApiRun ev)) evs = true -> Keeps w (deliverAll evs w).
Proof.
  unfold deliverAll. revert w.
  induction evs as [|ev evs IH]; intros w Hevs; [apply Keeps_refl|].
  simpl in Hevs. apply andb_prop in Hevs. destruct Hevs as [Hev Hevs].
  simpl. eapply Keeps_trans; [apply Keeps_deliver|apply IH; exact Hevs].
  destruct (isApiRun ev); [discriminate Hev|reflexivity].
Qed.

(** X4.  One alert per failed run.  Whatever happens to the engine, a
    generic error alert is raised only by the callback of
    [runAndHandleResult], once for each error the callback gets.  As long
    as no other module calls [run] itself, the generic alerts are exactly
    the errors that the parse, resolve, obfuscate and execute stages have
    logged, one alert per logged error and in the same order.  And stage by
    stage, for a run started by [runAndHandleResult]: a sequence that does
    not parse, a resolver error or an obfuscator exception, and an executor
    error each add exactly one alert with that error; a stage that succeeds
    adds none. *)
Theorem one_alert_per_failed_trigger_run
    (c : Config) (launcher : bool) (evs : list Event) :
  let w := deliverAll evs (initial c launcher) in
  genericAlerts (trace w) = triggerFailures (trace w)
  /\ (forallb (fun ev => negb (isApiRun ev)) evs = true ->
      genericAlerts (trace w) = runErrors (trace w))
  /\ (forall e w0,
        genericAlerts (trace (runAndHandleResult e w0))
        = genericAlerts (trace w0)
          ++ match parse (cfg w0) (getEffectiveAutoTypeSeq e) with
             | Thrown ex => [ex]
             | Returned _ => []
             end)
  /\ (forall id e w2 err ops,
        pending w2 !! id = Some (PResolve e (Some CbAlert)) ->
        genericAlerts (trace (deliver (EvResolved id err ops) w2))
        = genericAlerts (trace w2)
          ++ match resolveStageError (cfg w2) e err ops with
             | Some er => [er]
             | None => []
             end)
  /\ (forall id e w3 err,
        pending w3 !! id = Some (PExecute e (Some CbAlert)) ->
        genericAlerts (trace (deliver (EvExecuted id err) w3))
        = genericAlerts (trace w3)
          ++ match err with
             | Some er => [er]
             | None => []
             end).
Proof.
  intros w. subst w. split; [|split; [|split; [|split]]].
  - assert (H : Adds (initial c launcher) (deliverAll evs (initial c launcher))).
    { unfold deliverAll.
      assert (G : forall w', Adds (initial c launcher) w' ->
                Adds (initial c launcher) (fold_left (fun w ev => deliver ev w) evs w')).
      { induction evs as [|ev evs IH]; intros w' Hw'; [exact Hw'|].
        simpl. apply IH. apply (Adds_trans _ w'); [exact Hw'|apply Adds_deliver]. }
      apply G, Adds_refl. }
    destruct H as (d & Hd & Hb). rewrite Hd. simpl. exact Hb.
  - intros Hevs.
    destruct (Keeps_deliverAll evs (initial c launcher) Hevs) as [_ (d & Hd & Hb)].
    + intros id p Hp. simpl in Hp. rewrite lookup_empty in Hp. discriminate.
    + rewrite Hd. simpl. exact Hb.
  - intros e w0. unfold runAndHandleResult, run, callCallback, genericAlerts. wsimpl.
    destruct (parse (cfg w0) (getEffectiveAutoTypeSeq e)); wsimpl;
      rewrite ?omap_app; simpl; rewrite ?app_nil_r; reflexivity.
  - intros id e w2 err ops Hp. simpl deliver. rewrite Hp.
    unfold resolveCallback, resolveStageError, callCallback, genericAlerts. wsimpl.
    destruct err as [er|]; [|destruct (autoTypeObfuscation e);
                              [destruct (obfuscate (cfg w2) ops)|]]; wsimpl;
      rewrite ?omap_app; simpl; rewrite ?app_nil_r; reflexivity.
  - intros id e w3 err Hp. simpl deliver. rewrite Hp.
    unfold runnerRunCallback, callCallback, genericAlerts. wsimpl.
    destruct err; wsimpl; rewrite ?omap_app; simpl; rewrite ?app_nil_r; reflexivity.
Qed.

(** A trigger for an entry whose sequence does not parse, then a trigger
    for an entry whose resolver fails: two logged errors, two alerts. *)
Lemma one_alert_per_failed_trigger_run_witness :
  let evs := [EvInit; Sample.direct Sample.broken; Sample.direct Sample.alice;
              EvResolved 1 (Some "No such field") []] in
  let w := deliverAll evs (initial Sample.config true) in
  genericAlerts (trace w) = runErrors (trace w)
  /\ runErrors (trace w) = ["Bad sequence"; "No such field"].
Proof.
  intros evs w. split.
  - destruct (one_alert_per_failed_trigger_run Sample.config true evs) as (_ & H & _).
    apply H. reflexivity.
  - vm_compute. reflexivity.
Defined.

(** ** More on triggers *)

(** X5.  A trigger that reaches [handleEvent] while [running] is set is
    dropped: the world is the old one with two debug lines added, so no
    run, timer, query, view or listener comes of it. *)
Theorem trigger_while_running_is_dropped (e : option TriggerArg) (w : World)
    (Hrunning : running w = true) :
  handleEvent e w
  = set_trace (trace w ++ [mkStamped (LogDebug "Auto type event") true;
                           mkStamped (LogDebug "Already running, skipping event") true]) w.
Proof.
  unfold handleEvent. wsimpl. rewrite Hrunning. unfold emit. wsimpl.
  rewrite Hrunning, <- app_assoc. destruct w; reflexivity.
Qed.

Lemma trigger_while_running_is_dropped_witness :
  let w := run Sample.alice (Some CbAlert) Sample.idle in
  pending (handleEvent (Some (mkTriggerArg (Some Sample.bob))) w) = pending w.
Proof.
  intros w.
  assert (Hr : running w = true) by (vm_compute; reflexivity).
  rewrite (trigger_while_running_is_dropped (Some (mkTriggerArg (Some Sample.bob))) w Hr).
  reflexivity.
Defined.

(** X6.  An entry-less trigger that reaches [handleEvent] while nothing is
    running never hides the host, sets no timer and starts no run.  With a
    picker open it is dropped; with the host focused it raises the "global"
    error alert; otherwise it asks the helper for the active window's title
    and waits for the answer. *)
Theorem entryless_trigger_dispatch (e : option TriggerArg) (w : World)
    (Hidle : running w = false)
    (Hentry : match e with Some a => entry a | None => None end = None) :
  let w' := handleEvent e w in
  running w' = false /\ timers w' = timers w
  /\ sameDeferral w w' /\ samePicker w w'
  /\ if truthy (selectEntryView w)
     then pending w' = pending w
          /\ effects w' = effects w ++ [LogDebug "Auto type event"]
     else if isAppFocused w
     then pending w' = pending w
          /\ effects w' = effects w ++ [LogDebug "Auto type event";
                                        AlertsError AlertGlobal]
     else pending w' = <[nextId w := PTitle]> (pending w)
          /\ effects w' = effects w ++ [LogDebug "Auto type event";
                                        LogDebug "Get window title";
                                        QueryWindowTitle (nextId w)].
Proof.
  intros w'. subst w'. unfold handleEvent, selectEntryAndRun, sameDeferral, samePicker, effects.
  wsimpl. rewrite Hidle, Hentry.
  destruct (truthy (selectEntryView w)); [|destruct (isAppFocused w)]; wsimpl;
    rewrite ?map_app, <- ?app_assoc; repeat split; try reflexivity; exact Hidle.
Qed.

Lemma entryless_trigger_dispatch_witness :
  pending (handleEvent None Sample.idle) !! 0 = Some PTitle.
Proof.
  assert (Hr : running Sample.idle = false) by reflexivity.
  pose proof (entryless_trigger_dispatch None Sample.idle Hr eq_refl) as H.
  cbv zeta in H. destruct H as (_ & _ & _ & _ & H).
  change (truthy (selectEntryView Sample.idle)) with false in H.
  change (isAppFocused Sample.idle) with false in H. cbv iota in H.
  destruct H as [Hp _]. rewrite Hp. apply lookup_insert_eq.
Defined.

(** ** Wiring *)

Lemma init_disabled (w : World) : enabled w = false -> init w = w.
Proof. intros H. unfold init. rewrite H. reflexivity. Qed.

(** X7.  Where there is no [Launcher] ([enabled] is false), [init] wires
    nothing: no number of [init] calls and bus notifications changes the
    engine or performs an effect. *)
Theorem disabled_engine_is_inert (c : Config) (evs : list Event)
    (Hnotes : forallb isNotification evs = true) :
  deliverAll evs (initial c false) = initial c false.
Proof.
  unfold deliverAll. induction evs as [|ev evs IH]; [reflexivity|].
  simpl in Hnotes. apply andb_prop in Hnotes. destruct Hnotes as [Hev Hevs].
  simpl. destruct ev; try discriminate Hev; simpl; apply IH; exact Hevs.
Qed.

Lemma disabled_engine_is_inert_witness :
  deliverAll [EvInit; Sample.global; Sample.direct Sample.alice;
              EvTrigger MainWindowBlur None] (initial Sample.config false)
  = initial Sample.config false.
Proof.
  apply (disabled_engine_is_inert Sample.config). reflexivity.
Defined.

Lemma init_fields (w : World) :
  enabled (init w) = enabled w /\ sameRuns w (init w)
  /\ sameDeferral w (init w) /\ samePicker w (init w) /\ trace (init w) = trace w.
Proof.
  unfold init, sameRuns, sameDeferral, samePicker.
  destruct (negb (enabled w)); wsimpl; repeat split.
Qed.

Lemma trigger_app (name : BusEvent) (e : option TriggerArg) (l1 l2 : list (BusEvent * Handler))
    (w : World) :
  fold_left (fun w '(n, h) => if BusEvent_eqb n name then callHandler h e w else w)
            (l1 ++ l2) w
  = fold_left (fun w '(n, h) => if BusEvent_eqb n name then callHandler h e w else w) l2
      (fold_left (fun w '(n, h) => if BusEvent_eqb n name then callHandler h e w else w) l1 w).
Proof. apply fold_left_app. Qed.

Lemma concat_replicate_snoc {A : Type} (n : nat) (x : list A) :
  List.concat (replicate n x) ++ x = List.concat (replicate (S n) x).
Proof.
  induction n as [|n IH]; simpl.
  - rewrite app_nil_r. reflexivity.
  - rewrite <- app_assoc. simpl in IH. rewrite IH. reflexivity.
Qed.

(** The listeners after [n] calls of [init] on an engine that had none. *)
Lemma bus_after_inits (n : nat) (w : World) :
  enabled w = true -> bus w = [] ->
  enabled (Nat.iter n init w) = true
  /\ bus (Nat.iter n init w)
     = List.concat (replicate n wiring).
Proof.
  intros Hen Hbus. induction n as [|n [IHe IHb]]; [split; assumption|].
  simpl Nat.iter. unfold init at 1 3. rewrite IHe. simpl negb. cbv iota. wsimpl.
  split; [exact IHe|]. rewrite IHb. apply (concat_replicate_snoc n wiring).
Qed.

(** X8.  [init] is not idempotent: each call adds the three listeners
    again.  After [n] calls on an engine with a [Launcher], one
    ['auto-type'] notification runs [handleEvent] [n] times and one blur
    notification runs [resetPendingEvent] [n] times. *)
Theorem every_init_adds_a_listener (n : nat) (e : option TriggerArg) (w : World)
    (Henabled : enabled w = true) (Hfresh : bus w = []) :
  let wn := Nat.iter n init w in
  deliver (EvTrigger AutoTypeEvent e) wn = Nat.iter n (handleEvent e) wn
  /\ deliver (EvTrigger MainWindowBlur e) wn = Nat.iter n resetPendingEvent wn.
Proof.
  intros wn. destruct (bus_after_inits n w Henabled Hfresh) as [_ Hbus]. fold wn in Hbus.
  simpl deliver. unfold trigger. rewrite Hbus. generalize wn as w0. clear.
  assert (Hiter : forall (f : World -> World) m w0,
            Nat.iter m f (f w0) = f (Nat.iter m f w0)).
  { intros f m w0. induction m as [|m IH]; [reflexivity|]. simpl. rewrite IH. reflexivity. }
  induction n as [|n IH]; intros w0; [split; reflexivity|].
  change (List.concat (replicate (S n) wiring))
    with (wiring ++ List.concat (replicate n wiring)).
  rewrite !fold_left_app.
  change (fold_left (fun w '(n0, h) =>
                       if BusEvent_eqb n0 AutoTypeEvent then callHandler h e w else w)
                    wiring w0) with (handleEvent e w0).
  change (fold_left (fun w '(n0, h) =>
                       if BusEvent_eqb n0 MainWindowBlur then callHandler h e w else w)
                    wiring w0) with (resetPendingEvent w0).
  destruct (IH (handleEvent e w0)) as [Ha _].
  destruct (IH (resetPendingEvent w0)) as [_ Hb].
  rewrite Ha, Hb. simpl Nat.iter. rewrite !Hiter. split; reflexivity.
Qed.

Lemma every_init_adds_a_listener_witness :
  let w := initial Sample.config true in
  let e := Some (mkTriggerArg (Some Sample.alice)) in
  deliver (EvTrigger AutoTypeEvent e) (Nat.iter 2 init w)
  = Nat.iter 2 (handleEvent e) (Nat.iter 2 init w).
Proof.
  intros w e.
  destruct (every_init_adds_a_listener 2 e w eq_refl eq_refl) as [H _].
  exact H.
Defined.

(** ** Window context *)

(** X9.  A failed query for the active window's title is not fatal: apart
    from the line it logs, the engine goes on exactly as it does after a
    successful query that delivers the same (possibly absent) title and
    url. *)
Theorem window_title_error_is_not_fatal
    (er : Error) (title url : option jsstring) (w : World) :
  let wa := windowTitleCallback (Some er) title url w in
  let wb := windowTitleCallback None title url w in
  engineState wa = engineState wb
  /\ pending wa = pending wb /\ timers wa = timers wb /\ views wa = views wb
  /\ updateSubs wa = updateSubs wb /\ nextId wa = nextId wb
  /\ exists rest,
       effects wa = effects w ++ LogError "Error get window title" er :: rest
       /\ effects wb = effects w ++ LogDebug "Window title" :: rest.
Proof.
  intros wa wb. subst wa wb.
  unfold windowTitleCallback, processEventWithFilter, focusMainWindow, filesOnce,
    hideWindow, setTimeout, invoke, runAndHandleResult, run, callCallback,
    engineState, effects.
  wsimpl. cases; wsimpl; rewrite ?map_app, <- ?app_assoc; simpl;
    (do 6 (split; [reflexivity|])); eexists; split; reflexivity.
Qed.

(** An ['update'] with a trigger stored and a listener attached replays
    the stored trigger on the cleared engine. *)
Lemma update_replays_pending (evt : Evt) (w : World) :
  pendingEvent w = Some evt -> updateSubs w <> [] ->
  deliver EvFilesUpdate w
  = processEventWithFilter evt
      (set_pendingEvent None
         (filesOff (emit (LogDebug "processing pending auto-type event") w))).
Proof.
  intros Hpending Hsubs.
  set (cleared := set_pendingEvent None
                    (filesOff (emit (LogDebug "processing pending auto-type event") w))).
  destruct (processEventWithFilter_frame_deferred evt cleared) as (Hpe & Hus & _).
  change (updateSubs cleared) with (@nil nat) in Hus.
  change (pendingEvent cleared) with (@None Evt) in Hpe.
  simpl deliver. unfold triggerUpdate.
  destruct (updateSubs w) as [|sid subs]; [congruence|].
  simpl fold_left. unfold processPendingEvent at 2. wsimpl. rewrite Hpending.
  match goal with
  | |- fold_left _ _ (processEventWithFilter evt ?c) = _ =>
      replace c with cleared by (subst cleared; unfold filesOff; destruct w; reflexivity)
  end.
  destruct (update_without_pending subs (processEventWithFilter evt cleared))
    as (rest & Heq & Hnil); [exact Hpe|].
  rewrite Heq, (Hnil Hus).
  pose proof (set_updateSubs_same (processEventWithFilter evt cleared)) as Hsame.
  rewrite Hus in Hsame. exact Hsame.
Qed.

(** X10.  When a second entry-less trigger is deferred while the first is
    still stored, the second replaces it and a second listener is added.
    Once a file is open, one ['update'] replays the second trigger's window
    context only, and removes both listeners. *)
Theorem newest_deferred_trigger_wins
    (err1 err2 : option Error) (t1 u1 t2 u2 : option jsstring)
    (entries : Filter -> list Entry) (w : World)
    (Hclosed : hasOpenFiles w = false) :
  let w1 := windowTitleCallback err1 t1 u1 w in
  let w2 := windowTitleCallback err2 t2 u2 w1 in
  let opened := deliver (EvFiles true entries) w2 in
  let w3 := deliver EvFilesUpdate opened in
  pendingEvent w1 = Some (mkEvt (mkFilter t1 u1))
  /\ pendingEvent w2 = Some (mkEvt (mkFilter t2 u2))
  /\ List.length (updateSubs w2) = List.length (updateSubs w) + 2
  /\ w3 = processEventWithFilter (mkEvt (mkFilter t2 u2))
            (set_pendingEvent None
               (filesOff (emit (LogDebug "processing pending auto-type event") opened)))
  /\ pendingEvent w3 = None /\ updateSubs w3 = [].
Proof.
  intros w1 w2 opened w3.
  assert (H1 : pendingEvent w1 = Some (mkEvt (mkFilter t1 u1))
               /\ updateSubs w1 = updateSubs w ++ [nextId w]
               /\ hasOpenFiles w1 = false).
  { subst w1. unfold windowTitleCallback, focusMainWindow, setTimeout, filesOnce.
    destruct err1; wsimpl; rewrite Hclosed; wsimpl; repeat split; assumption. }
  destruct H1 as (Hp1 & Hs1 & Hc1).
  assert (H2 : pendingEvent w2 = Some (mkEvt (mkFilter t2 u2))
               /\ updateSubs w2 = updateSubs w1 ++ [nextId w1]).
  { subst w2. unfold windowTitleCallback, focusMainWindow, setTimeout, filesOnce.
    destruct err2; wsimpl; rewrite Hc1; wsimpl; repeat split. }
  destruct H2 as (Hp2 & Hs2).
  split; [exact Hp1|]. split; [exact Hp2|].
  split; [rewrite Hs2, Hs1, !length_app; simpl; lia|].
  assert (Hw3 : w3 = processEventWithFilter (mkEvt (mkFilter t2 u2))
            (set_pendingEvent None
               (filesOff (emit (LogDebug "processing pending auto-type event") opened)))).
  { subst w3. apply update_replays_pending.
    - subst opened. simpl. exact Hp2.
    - subst opened. simpl. wsimpl. rewrite Hs2.
      intros Hnil. apply app_eq_nil in Hnil. destruct Hnil as [_ Hnil]. discriminate Hnil. }
  split; [exact Hw3|]. rewrite Hw3.
  match goal with
  | |- pendingEvent (processEventWithFilter ?e ?c) = _ /\ _ =>
      destruct (processEventWithFilter_frame_deferred e c) as (Ha & Hb & _);
      rewrite Ha, Hb
  end.
  split; reflexivity.
Qed.

Lemma newest_deferred_trigger_wins_witness :
  let w1 := windowTitleCallback None (Some (js "Mail")) None Sample.idle in
  let w2 := windowTitleCallback None (Some (js "Login")) None w1 in
  pendingEvent w2 = Some (mkEvt (mkFilter (Some (js "Login")) None)).
Proof.
  intros w1 w2.
  apply (newest_deferred_trigger_wins None None (Some (js "Mail")) None (Some (js "Login")) None
           (fun _ => []) Sample.idle).
  reflexivity.
Defined.

(** X11.  [focusMainWindow] shows nothing by itself: it sets one timer with
    the delay [Timeouts.RedrawInactiveWindow].  The timer does nothing
    before it is due; fired when due it asks the launcher for the main
    window, once, and touches neither the runs nor the stored trigger nor
    the picker. *)
Theorem focusMainWindow_shows_after_delay (w : World) :
  let w' := focusMainWindow w in
  let tid := nextId w in
  let t := mkTimer (now w + RedrawInactiveWindow (cfg w)) KShowMainWindow in
  effects w' = effects w ++ [SetTimeout tid KShowMainWindow (RedrawInactiveWindow (cfg w))]
  /\ timers w' = <[tid := t]> (timers w)
  /\ sameRuns w w' /\ sameDeferral w w' /\ samePicker w w'
  /\ forall w2, timers w2 !! tid = Some t ->
       (now w2 < due t -> deliver (EvTimer tid) w2 = w2)
       /\ (due t <= now w2 ->
           let w3 := deliver (EvTimer tid) w2 in
           effects w3 = effects w2 ++ [Invoke KShowMainWindow; ShowMainWindow]
           /\ timers w3 = delete tid (timers w2)
           /\ sameRuns w2 w3 /\ sameDeferral w2 w3 /\ samePicker w2 w3).
Proof.
  intros w' tid t. subst w' tid t.
  unfold focusMainWindow, setTimeout, sameRuns, sameDeferral, samePicker, effects. wsimpl.
  split; [rewrite map_app; reflexivity|]. do 4 (split; [repeat split|]).
  intros w2 Ht. simpl deliver. unfold fireTimer. rewrite Ht. simpl due. split.
  - intros Hlt. apply Nat.leb_gt in Hlt. rewrite Hlt. reflexivity.
  - intros Hle. apply Nat.leb_le in Hle. rewrite Hle. simpl tcont.
    unfold invoke. wsimpl. rewrite !map_app, <- app_assoc. repeat split.
Qed.

Lemma focusMainWindow_shows_after_delay_witness :
  let w' := focusMainWindow Sample.idle in
  effects (deliver (EvTimer 0) (deliver (EvTick 20) w'))
  = effects (deliver (EvTick 20) w') ++ [Invoke KShowMainWindow; ShowMainWindow].
Proof.
  intros w'.
  destruct (focusMainWindow_shows_after_delay Sample.idle) as (_ & _ & _ & _ & _ & H).
  destruct (H (deliver (EvTick 20) w')) as [_ Hdue]; [reflexivity|].
  destruct Hdue as [He _]; [vm_compute; lia|]. exact He.
Defined.

(** ** More on the pipeline *)

(** X12.  [run] without a callback: every way the run can end still resets
    [running], and nothing is called and no alert is raised for it. *)
Theorem run_without_callback_is_silent (e : Entry) (w : World) :
  let id := nextId w in
  let w1 := run e None w in
  callsOf id (trace w1) = callsOf id (trace w)
  /\ genericAlerts (trace w1) = genericAlerts (trace w)
  /\ match parse (cfg w) (getEffectiveAutoTypeSeq e) with
     | Thrown ex => running w1 = false /\ pending w1 = pending w
     | Returned _ => running w1 = true /\ pending w1 = <[id := PResolve e None]> (pending w)
     end
  /\ (forall w2 err ops,
        pending w2 !! id = Some (PResolve e None) ->
        let w3 := deliver (EvResolved id err ops) w2 in
        callsOf id (trace w3) = callsOf id (trace w2)
        /\ genericAlerts (trace w3) = genericAlerts (trace w2)
        /\ match resolveStageError (cfg w2) e err ops with
           | Some _ => running w3 = false /\ pending w3 = delete id (pending w2)
           | None => pending w3 = <[id := PExecute e None]> (pending w2)
           end)
  /\ (forall w3 err,
        pending w3 !! id = Some (PExecute e None) ->
        let w4 := deliver (EvExecuted id err) w3 in
        callsOf id (trace w4) = callsOf id (trace w3)
        /\ genericAlerts (trace w4) = genericAlerts (trace w3)
        /\ running w4 = false /\ pending w4 = delete id (pending w3)).
Proof.
  intros id w1. subst id w1. split; [|split; [|split; [|split]]].
  - unfold run, callCallback. wsimpl. cases; no_new_calls.
  - unfold run, callCallback, genericAlerts. wsimpl.
    cases; rewrite ?omap_app; simpl; rewrite ?app_nil_r; reflexivity.
  - unfold run, callCallback. wsimpl. cases; split; reflexivity.
  - intros w2 err ops Hp. simpl deliver. rewrite Hp.
    unfold resolveCallback, resolveStageError, callCallback, genericAlerts. wsimpl.
    destruct err as [er|]; [|destruct (autoTypeObfuscation e);
                              [destruct (obfuscate (cfg w2) ops)|]]; wsimpl;
      rewrite ?omap_app; simpl; rewrite ?app_nil_r;
      (split; [try no_new_calls|]); (split; [reflexivity|]);
      try (split; reflexivity); apply insert_delete_eq.
  - intros w3 err Hp. simpl deliver. rewrite Hp.
    unfold runnerRunCallback, callCallback, genericAlerts. wsimpl.
    destruct err; wsimpl; rewrite ?omap_app; simpl; rewrite ?app_nil_r;
      (split; [no_new_calls|]); repeat split.
Qed.

Lemma run_without_callback_is_silent_witness :
  let w2 := run Sample.alice None Sample.idle in
  pending w2 !! 0 = Some (PResolve Sample.alice None)
  /\ running (deliver (EvResolved 0 (Some "No such field") []) w2) = false.
Proof.
  intros w2.
  assert (Hp : pending w2 !! 0 = Some (PResolve Sample.alice None)) by (vm_compute; reflexivity).
  split; [exact Hp|].
  destruct (run_without_callback_is_silent Sample.alice Sample.idle) as (_ & _ & _ & H & _).
  destruct (H w2 (Some "No such field") [] Hp) as (_ & _ & Hr & _). exact Hr.
Defined.

(** X13.  What the executor gets.  When the resolver has answered without
    error, the resolved ops are logged through [printOps]; an entry that
    does not ask for obfuscation has exactly these ops executed and the
    obfuscator is not called; an entry that asks for it has the
    obfuscator's result executed, and when the obfuscator throws nothing is
    executed and the run is over. *)
Theorem executor_gets_the_resolved_ops
    (id : nat) (e : Entry) (cb : option Callback) (ops : list Op) (w2 : World)
    (Hresolving : pending w2 !! id = Some (PResolve e cb)) :
  let w3 := deliver (EvResolved id None ops) w2 in
  let logged := LogOps "Resolved" (printOps (clearTextAutoTypeLog (cfg w2)) ops) in
  if autoTypeObfuscation e then
    match obfuscate (cfg w2) ops with
    | Returned ops' =>
        effects w3 = effects w2 ++ [logged; Obfuscate id; LogDebug "Obfuscated";
                                    Execute id ops']
        /\ pending w3 !! id = Some (PExecute e cb)
    | Thrown ex =>
        running w3 = false /\ pending w3 !! id = None
        /\ exists rest,
             effects w3 = effects w2 ++ [logged; Obfuscate id;
                                         LogError "Obfuscate error" ex] ++ rest
             /\ List.filter isExecute rest = []
    end
  else
    effects w3 = effects w2 ++ [logged; Execute id ops]
    /\ pending w3 !! id = Some (PExecute e cb).
Proof.
  intros w3 logged. subst w3 logged. simpl deliver. rewrite Hresolving.
  unfold resolveCallback, callCallback, effects. wsimpl.
  destruct (autoTypeObfuscation e); [destruct (obfuscate (cfg w2) ops) as [ops'|ex]|]; wsimpl.
  - rewrite !map_app, <- !app_assoc. split; [reflexivity|apply lookup_insert_eq].
  - destruct cb as [[|n]|]; wsimpl; rewrite ?map_app, <- ?app_assoc;
      (split; [reflexivity|]); (split; [apply lookup_delete_eq|]);
      eexists; (split; [simpl; reflexivity|reflexivity]).
  - rewrite !map_app, <- !app_assoc. split; [reflexivity|apply lookup_insert_eq].
Qed.

Lemma executor_gets_the_resolved_ops_witness :
  let w2 := run Sample.bob (Some CbAlert) Sample.idle in
  let ops := [OpText None (js "secret")] in
  effects (deliver (EvResolved 0 None ops) w2)
  = effects w2 ++ [LogOps "Resolved" (js "[******]"); Obfuscate 0; LogDebug "Obfuscated";
                   Execute 0 [OpGroup None ops]].
Proof.
  intros w2 ops.
  assert (Hp : pending w2 !! 0 = Some (PResolve Sample.bob (Some CbAlert)))
    by (vm_compute; reflexivity).
  pose proof (executor_gets_the_resolved_ops 0 Sample.bob (Some CbAlert) ops w2 Hp) as H.
  cbv zeta in H. change (autoTypeObfuscation Sample.bob) with true in H. cbv iota in H.
  change (obfuscate (cfg w2) ops) with (Returned [OpGroup None ops]) in H.
  destruct H as [H _]. exact H.
Defined.

Lemma run_parse_failure_alert (e : Entry) (ex : Error) (w : World) :
  parse (cfg w) (getEffectiveAutoTypeSeq e) = Thrown ex ->
  running (run e (Some CbAlert) w) = false
  /\ pending (run e (Some CbAlert) w) = pending w
  /\ genericAlerts (trace (run e (Some CbAlert) w)) = genericAlerts (trace w) ++ [ex].
Proof.
  intros Hparse. unfold run, callCallback, genericAlerts. wsimpl. rewrite Hparse. wsimpl.
  rewrite !omap_app. simpl. rewrite !app_nil_r. repeat split.
Qed.

Lemma run_parse_success (e : Entry) (cb : option Callback) (ops : list Op) (w : World) :
  parse (cfg w) (getEffectiveAutoTypeSeq e) = Returned ops ->
  running (run e cb w) = true
  /\ pending (run e cb w) = <[nextId w := PResolve e cb]> (pending w).
Proof.
  intros Hparse. unfold run. wsimpl. rewrite Hparse. wsimpl. split; reflexivity.
Qed.

(** X14.  An entry-less trigger from start to run.  With nothing running, no
    picker open, the host not focused and a file open, [handleEvent] asks
    for the window title; when the answer comes (an error included) and the
    filter built from it has exactly one match, that entry's run starts
    without a picker, or, if its sequence does not parse, the run is over
    at once and one generic alert is raised. *)
Theorem global_trigger_with_one_match_runs_it
    (e0 : Entry) (err : option Error) (title url : option jsstring) (w : World)
    (Hidle : running w = false)
    (Hnopicker : truthy (selectEntryView w) = false)
    (Hunfocused : isAppFocused w = false)
    (Hopen : hasOpenFiles w = true)
    (Hone : getEntries w (mkFilter title url) = [e0]) :
  let id := nextId w in
  let w1 := handleEvent None w in
  let w2 := deliver (EvWindowTitle id err title url) w1 in
  pending w1 !! id = Some PTitle
  /\ samePicker w w2 /\ sameDeferral w w2 /\ timers w2 = timers w
  /\ pending w2 !! id = None
  /\ match parse (cfg w) (getEffectiveAutoTypeSeq e0) with
     | Returned _ =>
         running w2 = true
         /\ pending w2 !! (S id) = Some (PResolve e0 (Some CbAlert))
     | Thrown ex =>
         running w2 = false
         /\ genericAlerts (trace w2) = genericAlerts (trace w) ++ [ex]
     end.
Proof.
  intros id w1 w2.
  assert (Hw1 : w1 = selectEntryAndRun (emit (LogDebug "Auto type event") w)).
  { subst w1. unfold handleEvent. wsimpl. rewrite Hidle, Hnopicker, Hunfocused. reflexivity. }
  assert (Hp1 : pending w1 !! id = Some PTitle).
  { rewrite Hw1. unfold selectEntryAndRun. wsimpl. apply lookup_insert_eq. }
  split; [exact Hp1|].
  (* the world in which the run starts *)
  set (answered := set_pending (delete id (pending w1)) w1).
  set (logged := match err with
                 | Some e => emit (LogError "Error get window title" e) answered
                 | None => emit (LogDebug "Window title") answered
                 end).
  set (start := emit (Invoke (KRunAndHandleResult e0)) (emit (LogDebug "Hide window") logged)).
  assert (Hw2 : w2 = run e0 (Some CbAlert) start).
  { subst w2. simpl deliver. rewrite Hp1. fold answered.
    unfold windowTitleCallback. cbn zeta. fold logged.
    assert (Hfields : hasOpenFiles logged = true
                      /\ getEntries logged (mkFilter title url) = [e0]
                      /\ isAppFocused logged = false).
    { subst logged answered. rewrite Hw1. unfold selectEntryAndRun.
      destruct err; wsimpl; repeat split; assumption. }
    destruct Hfields as (Ho & Hg & Hf).
    rewrite Ho. cbn [negb]. unfold processEventWithFilter. cbn [filter]. rewrite Hg.
    pose proof (hideWindow_spec (KRunAndHandleResult e0) logged) as Hh.
    cbn zeta in Hh. rewrite Hf in Hh. rewrite Hh. apply invoke_spec. }
  assert (Hstart : samePicker w start /\ sameDeferral w start /\ timers start = timers w
                   /\ running start = false /\ cfg start = cfg w
                   /\ nextId start = S id
                   /\ pending start = delete id (<[id := PTitle]> (pending w))
                   /\ genericAlerts (trace start) = genericAlerts (trace w)).
  { subst start logged answered id. rewrite Hw1.
    unfold selectEntryAndRun, samePicker, sameDeferral, genericAlerts.
    destruct err; wsimpl; rewrite !omap_app; simpl; rewrite !app_nil_r;
      repeat split; assumption. }
  destruct Hstart as (Hpick & Hdef & Htim & Hrun & Hcfg & Hnext & Hpend & Halerts).
  destruct (run_frame e0 (Some CbAlert) start) as [Hd' Hp'].
  rewrite Hw2.
  split; [exact (samePicker_trans _ _ _ Hpick Hp')|].
  split; [exact (sameDeferral_trans _ _ _ Hdef Hd')|].
  split; [rewrite run_no_timers; exact Htim|].
  rewrite <- Hcfg.
  destruct (parse (cfg start) (getEffectiveAutoTypeSeq e0)) as [ops|ex] eqn:Hparse.
  - destruct (run_parse_success e0 (Some CbAlert) ops start Hparse) as [Hr Hq].
    rewrite Hr, Hq, Hnext, Hpend.
    split; [rewrite lookup_insert_ne by lia; apply lookup_delete_eq|].
    split; [reflexivity|apply lookup_insert_eq].
  - destruct (run_parse_failure_alert e0 ex start Hparse) as (Hr & Hq & Ha).
    rewrite Hr, Hq, Ha, Hpend, Halerts.
    split; [apply lookup_delete_eq|]. split; reflexivity.
Qed.

Lemma global_trigger_with_one_match_runs_it_witness :
  let w := set_getEntries (fun _ => [Sample.alice]) (set_hasOpenFiles true Sample.idle) in
  pending (deliver (EvWindowTitle 0 None None None) (handleEvent None w)) !! 1
  = Some (PResolve Sample.alice (Some CbAlert)).
Proof.
  intros w.
  pose proof (global_trigger_with_one_match_runs_it Sample.alice None None None w
                eq_refl eq_refl eq_refl eq_refl eq_refl) as H.
  cbv zeta in H. destruct H as (_ & _ & _ & _ & _ & H).
  change (parse (cfg w) (getEffectiveAutoTypeSeq Sample.alice))
    with (Returned [OpText None (getEffectiveAutoTypeSeq Sample.alice)]) in H.
  destruct H as [_ H]. exact H.
Defined.

(** ** More on the log redaction *)

Lemma replaceDotStar_length (value : jsstring) :
  List.length (replaceDotStar value) = List.length value.
Proof. unfold replaceDotStar. apply length_map. Qed.

Lemma join_length (sep : jsstring) (l l' : list jsstring) :
  Forall2 (fun a b => List.length a = List.length b) l l' ->
  List.length (join sep l) = List.length (join sep l').
Proof.
  induction 1 as [|a b l l' Hab Hl IH]; [reflexivity|].
  destruct Hl as [|a' b' l l' Hab' Hl]; [exact Hab|].
  change (join sep (a :: a' :: l)) with (a ++ sep ++ join sep (a' :: l)).
  change (join sep (b :: b' :: l')) with (b ++ sep ++ join sep (b' :: l')).
  rewrite !length_app, Hab, IH. reflexivity.
Qed.

Lemma printOp_length (op : Op) :
  List.length (printOp false op) = List.length (printOp true op).
Proof.
  revert op. fix IH 1. intros [m value|m value|m type value]; cbn [printOp].
  - rewrite !length_app. do 3 f_equal. apply join_length.
    induction value as [|o value IHvalue]; cbn [map]; constructor; [apply IH|exact IHvalue].
  - rewrite !length_app, replaceDotStar_length. reflexivity.
  - reflexivity.
Qed.

(** X15.  Redaction keeps the shape of the log line.  The masked rendering
    of an op tree is the clear rendering of the same tree with every text
    literal passed through the mask, and the two renderings have the same
    length: the log shows how long each literal is, and where groups,
    commands and modifiers are. *)
Theorem redaction_keeps_the_shape (ops : list Op) :
  printOps false ops = printOps true (map maskOp ops)
  /\ List.length (printOps false ops) = List.length (printOps true ops).
Proof.
  split.
  - assert (Hmap : map (printOp false) ops = map (printOp true) (map maskOp ops)).
    { rewrite map_map. induction ops as [|o ops IH]; cbn [map]; [reflexivity|].
      rewrite printOp_masks_only_text, IH. reflexivity. }
    unfold printOps. rewrite Hmap. reflexivity.
  - unfold printOps. rewrite !length_app. do 2 f_equal. apply join_length.
    induction ops as [|o ops IH]; cbn [map]; constructor; [apply printOp_length|exact IH].
Qed.
